(** * comfyui_controlnet_aux: registration, dispatch and preview-grid package

    A shallow embedding of [__init__.py]: the node loader [load_nodes], the
    option list [preprocessor_options], the two dispatch adapters
    ([AIO_Preprocessor.execute] and
    [ControlNetPreprocessorSelector.get_preprocessor]) and the graph composer
    [ExecuteAllControlNetPreprocessors.execute].

    Python values are an inductive type, Python exceptions are the error
    side of a result monad, and a Python [dict] is an insertion-ordered
    association list with unique keys. *)

From Stdlib Require Import String Ascii List Bool Arith ZArith QArith Lia.
Import ListNotations.
Close Scope Q_scope.
Open Scope string_scope.
Open Scope list_scope.

Set Warnings "-register-all".

(** ** Python values and exceptions *)

(** The values that flow through the package.  [VObj] stands for an opaque
    host object (an image tensor, a loaded ControlNet model). *)
Inductive pyvalue : Type :=
| VNone
| VBool (b : bool)
| VInt (z : Z)
| VFloat (q : Q)
| VStr (s : string)
| VList (l : list pyvalue)
| VTuple (l : list pyvalue)
| VDict (d : list (string * pyvalue))
| VObj (id : nat).

(** The exceptions the modelled code can meet. *)
Inductive pyexc : Type :=
| TypeError (msg : string)
| KeyError (key : pyvalue)
| IndexError (msg : string)
| RuntimeError (msg : string).

Inductive result (A : Type) : Type :=
| Ok (a : A)
| Raise (e : pyexc).
Arguments Ok {A} a.
Arguments Raise {A} e.

Definition bind {A B} (r : result A) (f : A -> result B) : result B :=
  match r with
  | Ok a => f a
  | Raise e => Raise e
  end.

Notation "x <- c1 ;; c2" := (bind c1 (fun x => c2))
  (at level 61, c1 at next level, right associativity).

Definition is_ok {A} (r : result A) : bool :=
  match r with Ok _ => true | Raise _ => false end.

(** ** Python dictionaries

    Keys are strings.  Iteration order is insertion order; assigning to a
    key that is present keeps its position and replaces its value. *)
Module Dict.
Section Defs.
Context {V : Type}.

Definition t := list (string * V).

Definition empty : t := [].

Fixpoint set (k : string) (v : V) (d : t) : t :=
  match d with
  | [] => [(k, v)]
  | (k', v') :: r =>
      if String.eqb k k' then (k, v) :: r else (k', v') :: set k v r
  end.

Fixpoint get (k : string) (d : t) : option V :=
  match d with
  | [] => None
  | (k', v') :: r => if String.eqb k k' then Some v' else get k r
  end.

Definition mem (k : string) (d : t) : bool :=
  match get k d with Some _ => true | None => false end.

Definition keys (d : t) : list string := map fst d.

(** [d.update(other)], also the meaning of [**other] inside a dict
    display. *)
Definition update (d : t) (other : list (string * V)) : t :=
  fold_left (fun acc kv => set (fst kv) (snd kv) acc) other d.

(** A dict display [{k1: v1, ..., kn: vn}]. *)
Definition of_items (l : list (string * V)) : t := update empty l.
End Defs.
Arguments t V : clear implicits.
End Dict.

Definition str_in (s : string) (l : list string) : bool :=
  existsb (String.eqb s) l.

(** ** Python operators on values *)

(** [hash(v)] succeeds: lists and dicts are unhashable, a tuple is hashable
    when all its items are. *)
Fixpoint hashable (v : pyvalue) : bool :=
  match v with
  | VList _ | VDict _ => false
  | VTuple l => forallb hashable l
  | _ => true
  end.

Definition unhashable_type : pyexc := TypeError "unhashable type".

(** [key in d] for a dict whose keys are strings. *)
Definition py_in_dict {V} (key : pyvalue) (d : Dict.t V) : result bool :=
  if hashable key then
    match key with
    | VStr s => Ok (Dict.mem s d)
    | _ => Ok false
    end
  else Raise unhashable_type.

(** [d[key]] for a dict whose keys are strings. *)
Definition py_dict_getitem {V} (d : Dict.t V) (key : pyvalue) : result V :=
  if hashable key then
    match key with
    | VStr s =>
        match Dict.get s d with
        | Some v => Ok v
        | None => Raise (KeyError key)
        end
    | _ => Raise (KeyError key)
    end
  else Raise unhashable_type.

(** [v == s] for a string literal [s]. *)
Definition py_eq_str (v : pyvalue) (s : string) : bool :=
  match v with
  | VStr s' => String.eqb s' s
  | _ => false
  end.

(** A [for] loop over a list, threading the loop state; an exception raised
    by the body leaves the loop. *)
Fixpoint for_each {A S} (l : list A) (s : S) (body : S -> A -> result S)
  : result S :=
  match l with
  | [] => Ok s
  | x :: r => s' <- body s x ;; for_each r s' body
  end.

(** ** Units and their input schemas *)

(** One schema entry, the tuple [(type, options...)]: [input_type[0]] is
    [it_type], a type name or the list of choices of a combo;
    [input_type[1:]] is [it_rest], so [len(input_type) = 1 + length it_rest]
    and [input_type[1]], when present, is the options dict.  The model
    covers the descriptors that have this shape: an empty tuple, on which
    [input_type[0]] raises [IndexError] (lines 117 and 259), and a second
    item that is not a dict have no counterpart here. *)
Record input_type : Type := {
  it_type : pyvalue;
  it_rest : list (Dict.t pyvalue)
}.

(** The value of [aux_class.INPUT_TYPES()]: the "required" group and the
    "optional" group when the unit declares one.  The model covers the
    units whose [INPUT_TYPES()] returns a dict with a "required" group: a
    call that raises, and a dict without "required", on which line 99 (and
    241) raises [KeyError], have no counterpart here. *)
Record input_types : Type := {
  required : list (string * input_type);
  optional : option (list (string * input_type))
}.

(** A registered unit: its schema and its entry point, the method
    [getattr(aux_class(), aux_class.FUNCTION)] called with keyword
    arguments. *)
Record aux_class : Type := {
  INPUT_TYPES : input_types;
  FUNCTION : Dict.t pyvalue -> result pyvalue
}.

(** [{**input_types["required"], **(input_types["optional"] if ... else {})}] *)
Definition merge_input_types (its : input_types) : Dict.t input_type :=
  Dict.update (Dict.update Dict.empty (required its))
              (match optional its with Some o => o | None => [] end).

(** ** Argument building (the loop of both adapters) *)

Definition default_values : Dict.t pyvalue :=
  [("INT", VInt 0); ("FLOAT", VFloat 0)].

(** Lines 116-123: the type fallback of [AIO_Preprocessor.execute]. *)
Definition AIO_fallback (name : string) (input_type : input_type)
    (params : Dict.t pyvalue) : result (Dict.t pyvalue) :=
  match it_type input_type with
  | VList options =>
      for_each options params (fun params input_type_value =>
        found <- py_in_dict input_type_value default_values ;;
        if (found : bool) then
          v <- py_dict_getitem default_values (it_type input_type) ;;
          Ok (Dict.set name v params)
        else Ok params)
  | tag =>
      found <- py_in_dict tag default_values ;;
      if (found : bool) then
        v <- py_dict_getitem default_values tag ;;
        Ok (Dict.set name v params)
      else Ok params
  end.

(** Lines 258-259: the type fallback of
    [ControlNetPreprocessorSelector.get_preprocessor]. *)
Definition Selector_fallback (name : string) (input_type : input_type)
    (params : Dict.t pyvalue) : result (Dict.t pyvalue) :=
  found <- py_in_dict (it_type input_type) default_values ;;
  if (found : bool) then
    v <- py_dict_getitem default_values (it_type input_type) ;;
    Ok (Dict.set name v params)
  else Ok params.

(** Lines 104-114 and 246-256: one iteration of the loop over the schema,
    which the two adapters share up to the type fallback that ends it. *)
Definition bind_param
    (fallback : string -> input_type -> Dict.t pyvalue -> result (Dict.t pyvalue))
    (image resolution : pyvalue)
    (params : Dict.t pyvalue) (item : string * input_type)
  : result (Dict.t pyvalue) :=
  let (name, input_type) := item in
  if String.eqb name "image" then Ok (Dict.set name image params)
  else if String.eqb name "resolution" then Ok (Dict.set name resolution params)
  else
    match it_rest input_type with
    | [options] =>
        if Dict.mem "default" options then
          v <- py_dict_getitem options (VStr "default") ;;
          Ok (Dict.set name v params)
        else fallback name input_type params
    | _ => fallback name input_type params
    end.

(** Lines 102-123. *)
Definition AIO_params (image resolution : pyvalue)
    (input_types : Dict.t input_type) : result (Dict.t pyvalue) :=
  for_each input_types Dict.empty (bind_param AIO_fallback image resolution).

(** Lines 244-259. *)
Definition Selector_params (image resolution : pyvalue)
    (input_types : Dict.t input_type) : result (Dict.t pyvalue) :=
  for_each input_types Dict.empty (bind_param Selector_fallback image resolution).

(** ** Dispatch: the two adapter entry points *)

(** What an entry point does to the world around it, in order: the registry
    lookup, the schema query and the call of a unit, and what the selector
    prints and loads. *)
Inductive event : Type :=
| EvLookup (name : pyvalue)
| EvInputTypes (name : pyvalue)
| EvCall (name : pyvalue) (params : Dict.t pyvalue)
| EvPrint (v : pyvalue)
| EvLoadControlnet (cn : pyvalue).

(** A computation that logs events and may raise. *)
Definition traced (A : Type) : Type := (list event * result A)%type.

Definition tret {A} (a : A) : traced A := ([], Ok a).

Definition tbind {A B} (m : traced A) (f : A -> traced B) : traced B :=
  match m with
  | (t1, Ok a) => let (t2, r) := f a in (t1 ++ t2, r)
  | (t1, Raise e) => (t1, Raise e)
  end.

Definition emit (e : event) : traced unit := ([e], Ok tt).

Definition lift {A} (r : result A) : traced A := ([], r).

Notation "x <~ c1 ;; c2" := (tbind c1 (fun x => c2))
  (at level 61, c1 at next level, right associativity).

(** A keyword parameter with a default value. *)
Definition or_default {A} (arg : option A) (default : A) : A :=
  match arg with Some a => a | None => default end.

(** [AIO_Preprocessor.execute(self, preprocessor, image, resolution=512)] *)
Definition AIO_execute (AUX_NODE_MAPPINGS : Dict.t aux_class)
    (preprocessor image : pyvalue) (resolution : option pyvalue)
  : traced pyvalue :=
  let resolution := or_default resolution (VInt 512) in
  if py_eq_str preprocessor "none" then tret (VTuple [image])
  else
    _ <~ emit (EvLookup preprocessor) ;;
    aux_class <~ lift (py_dict_getitem AUX_NODE_MAPPINGS preprocessor) ;;
    _ <~ emit (EvInputTypes preprocessor) ;;
    let input_types := merge_input_types (INPUT_TYPES aux_class) in
    params <~ lift (AIO_params image resolution input_types) ;;
    _ <~ emit (EvCall preprocessor params) ;;
    lift (FUNCTION aux_class params).

(** [seq[i]] for a list or a tuple. *)
Definition py_seq_getitem (l : list pyvalue) (key : pyvalue) : result pyvalue :=
  match key with
  | VInt i =>
      let n := Z.of_nat (length l) in
      let j := if (i <? 0)%Z then (i + n)%Z else i in
      if ((0 <=? j) && (j <? n))%Z then
        match nth_error l (Z.to_nat j) with
        | Some v => Ok v
        | None => Raise (IndexError "index out of range")
        end
      else Raise (IndexError "index out of range")
  | _ => Raise (TypeError "indices must be integers")
  end.

(** [v[key]]; among the modelled values only dicts, lists and tuples are
    subscripted ([None[key]] is a [TypeError]). *)
Definition py_getitem (v key : pyvalue) : result pyvalue :=
  match v with
  | VDict d => py_dict_getitem d key
  | VList l | VTuple l => py_seq_getitem l key
  | _ => Raise (TypeError "object is not subscriptable")
  end.

(** [(x,) + v] *)
Definition py_tuple_add (t : list pyvalue) (v : pyvalue) : result pyvalue :=
  match v with
  | VTuple l => Ok (VTuple (t ++ l))
  | _ => Raise (TypeError "can only concatenate tuple to tuple")
  end.

(** [ControlNetPreprocessorSelector.get_preprocessor(self, cn, image,
    resolution=512, prompt=None, my_unique_id=None)].  [load_controlnet]
    stands for the host's
    [comfy.controlnet.load_controlnet(folder_paths.get_full_path("controlnet", cn))]. *)
Definition get_preprocessor (load_controlnet : pyvalue -> result pyvalue)
    (AUX_NODE_MAPPINGS : Dict.t aux_class)
    (cn image : pyvalue) (resolution prompt my_unique_id : option pyvalue)
  : traced pyvalue :=
  let resolution := or_default resolution (VInt 512) in
  let prompt := or_default prompt VNone in
  let my_unique_id := or_default my_unique_id VNone in
  _ <~ emit (EvLoadControlnet cn) ;;
  cnmodel <~ lift (load_controlnet cn) ;;
  _ <~ emit (EvPrint prompt) ;;
  cnprepro <~ lift (node <- py_getitem prompt my_unique_id ;;
                    inputs <- py_getitem node (VStr "inputs") ;;
                    py_getitem inputs (VStr "select_styles")) ;;
  if py_eq_str cnprepro "none" then tret (VTuple [cnmodel; image])
  else
    _ <~ emit (EvLookup cnprepro) ;;
    aux_class <~ lift (py_dict_getitem AUX_NODE_MAPPINGS cnprepro) ;;
    _ <~ emit (EvInputTypes cnprepro) ;;
    let input_types := merge_input_types (INPUT_TYPES aux_class) in
    params <~ lift (Selector_params image resolution input_types) ;;
    _ <~ emit (EvCall cnprepro params) ;;
    predict <~ lift (FUNCTION aux_class params) ;;
    match predict with
    | VDict d =>
        r <~ lift (py_dict_getitem d (VStr "result")) ;;
        lift (py_tuple_add [cnmodel] r)
    | _ => lift (py_tuple_add [cnmodel] predict)
    end.

(** ** Discovery: [load_nodes] *)

(** What can be raised inside the [try] of lines 29-37 and is caught by one
    of its two handlers: an [AttributeError], or another [Exception] whose
    formatted traceback continues with [traceback_tail] after the header
    line.  (An exception that is not an [Exception], a [KeyboardInterrupt]
    or a [SystemExit], is caught by neither handler and ends the process's
    start-up: such imports are outside this model.) *)
Inductive import_error : Type :=
| AttributeError
| OtherException (traceback_tail : string).

(** A module attribute, as lines 33-35 use it.  [Missing]: the module has
    no such attribute, so [getattr] raises [AttributeError] and [hasattr] is
    false.  [Unreadable]: reading it raises another exception.
    [Holds items raised]: the attribute has a value, and [d.update(value)]
    merges [items] into [d], in order, and then raises [raised] when that is
    not [None].  A dict merges all its items and raises nothing; a value
    that is not a mapping merges the pairs it yields before the point where
    [update] gives up. *)
Inductive attribute (V : Type) : Type :=
| Missing
| Unreadable (traceback_tail : string)
| Holds (items : list (string * V)) (raised : option import_error).
Arguments Missing {V}.
Arguments Unreadable {V} traceback_tail.
Arguments Holds {V} items raised.

(** An imported module, seen through the two attributes the loader reads. *)
Record module : Type := {
  NODE_CLASS_MAPPINGS : attribute aux_class;
  NODE_DISPLAY_NAME_MAPPINGS : attribute string
}.

Inductive import_result : Type :=
| ImportRaises (e : import_error)
| Imported (m : module).

(** One entry of the [node_wrappers] directory: [filename.stem] and what
    importing it yields. *)
Record candidate : Type := {
  stem : string;
  import_module : import_result
}.

Definition newline : string := String (ascii_of_nat 10) EmptyString.

(** [traceback.format_exc()] inside the handler. *)
Definition format_exc (traceback_tail : string) : string :=
  "Traceback (most recent call last):" ++ newline ++ traceback_tail.

(** A string holds the UTF-8 encoding of Python's [str].  The line
    boundaries of [str.splitlines] that are one byte long: LF, VT, FF, CR,
    FS, GS, RS. *)
Definition is_linebreak (c : ascii) : bool :=
  let n := nat_of_ascii c in
  ((n =? 10) || (n =? 11) || (n =? 12) || (n =? 13)
   || (n =? 28) || (n =? 29) || (n =? 30))%nat.

(** U+0085 (NEL), encoded as the bytes C2 85. *)
Definition is_next_line (c c1 : ascii) : bool :=
  ((nat_of_ascii c =? 194) && (nat_of_ascii c1 =? 133))%nat.

(** U+2028 and U+2029 (line and paragraph separator), encoded as the bytes
    E2 80 A8 and E2 80 A9. *)
Definition is_separator (c c1 c2 : ascii) : bool :=
  ((nat_of_ascii c =? 226) && (nat_of_ascii c1 =? 128)
   && ((nat_of_ascii c2 =? 168) || (nat_of_ascii c2 =? 169)))%nat.

(** [str.splitlines]: the text is cut at every line boundary, CR LF counting
    as one; [line] is the line read so far. *)
Fixpoint splitlines_from (line s : string) : list string :=
  match s with
  | EmptyString =>
      match line with
      | EmptyString => []
      | _ => [line]
      end
  | String c rest =>
      if is_linebreak c then
        line ::
          match rest with
          | String c' rest' =>
              if ((nat_of_ascii c =? 13) && (nat_of_ascii c' =? 10))%nat
              then splitlines_from EmptyString rest'
              else splitlines_from EmptyString rest
          | EmptyString => splitlines_from EmptyString rest
          end
      else
        match rest with
        | String c1 rest1 =>
            if is_next_line c c1 then line :: splitlines_from EmptyString rest1
            else
              match rest1 with
              | String c2 rest2 =>
                  if is_separator c c1 c2
                  then line :: splitlines_from EmptyString rest2
                  else splitlines_from (line ++ String c EmptyString)%string rest
              | EmptyString =>
                  splitlines_from (line ++ String c EmptyString)%string rest
              end
        | EmptyString =>
            splitlines_from (line ++ String c EmptyString)%string rest
        end
  end.

Definition splitlines (s : string) : list string :=
  splitlines_from EmptyString s.

(** [l[-1]] *)
Definition py_last (l : list string) : result string :=
  match rev l with
  | x :: _ => Ok x
  | [] => Raise (IndexError "list index out of range")
  end.

(** [str.startswith('.')] *)
Definition startswith_dot (s : string) : bool :=
  match s with
  | String c _ => Ascii.eqb c "."%char
  | EmptyString => false
  end.

(** The four locals of [load_nodes]. *)
Record load_state : Type := {
  shorted_errors : list string;
  full_error_messages : list string;
  node_class_mappings : Dict.t aux_class;
  node_display_name_mappings : Dict.t string
}.

Definition load_start : load_state :=
  {| shorted_errors := []; full_error_messages := [];
     node_class_mappings := Dict.empty;
     node_display_name_mappings := Dict.empty |}.

(** Lines 30-37, the body of the [try]: the locals when it ends, and the
    exception that ended it, if any.  Line 33 has merged the class table
    by the time lines 34-35 read and merge the display names. *)
Definition try_import (st : load_state) (filename : candidate)
  : load_state * option import_error :=
  match import_module filename with
  | ImportRaises e => (st, Some e)
  | Imported module =>
      match NODE_CLASS_MAPPINGS module with
      | Missing => (st, Some AttributeError)
      | Unreadable traceback_tail => (st, Some (OtherException traceback_tail))
      | Holds class_mappings raised =>
          let st :=
            {| shorted_errors := shorted_errors st;
               full_error_messages := full_error_messages st;
               node_class_mappings :=
                 Dict.update (node_class_mappings st) class_mappings;
               node_display_name_mappings := node_display_name_mappings st |} in
          match raised with
          | Some e => (st, Some e)
          | None =>
              match NODE_DISPLAY_NAME_MAPPINGS module with
              | Missing => (st, None)
              | Unreadable traceback_tail =>
                  (st, Some (OtherException traceback_tail))
              | Holds display_names raised =>
                  ({| shorted_errors := shorted_errors st;
                      full_error_messages := full_error_messages st;
                      node_class_mappings := node_class_mappings st;
                      node_display_name_mappings :=
                        Dict.update (node_display_name_mappings st)
                          display_names |},
                   raised)
              end
          end
      end
  end.

(** Lines 27-47: the body of the loop over the directory, the [try] with
    its two handlers. *)
Definition load_one (st : load_state) (filename : candidate) : result load_state :=
  let module_name := stem filename in
  if startswith_dot module_name then Ok st
  else
    let (st, raised) := try_import st filename in
    match raised with
    | None => Ok st
    | Some AttributeError => Ok st
    | Some (OtherException traceback_tail) =>
        let error_message := format_exc traceback_tail in
        let full := full_error_messages st ++ [error_message] in
        error_message <- py_last (splitlines error_message) ;;
        Ok {| shorted_errors :=
                shorted_errors st ++
                  [("Failed to import module " ++ module_name ++ " because "
                      ++ error_message)%string];
              full_error_messages := full;
              node_class_mappings := node_class_mappings st;
              node_display_name_mappings := node_display_name_mappings st |}
    end.

(** Lines 21-47: the locals when the loop ends. *)
Definition load_nodes_loop (node_wrappers : list candidate) : result load_state :=
  for_each node_wrappers load_start load_one.

(** [load_nodes()]; the report it prints and logs when [shorted_errors] is
    not empty is output only and is left out. *)
Definition load_nodes (node_wrappers : list candidate)
  : result (Dict.t aux_class * Dict.t string) :=
  st <- load_nodes_loop node_wrappers ;;
  Ok (node_class_mappings st, node_display_name_mappings st).

(** ** The option list: [preprocessor_options] *)

Definition AIO_NOT_SUPPORTED : list string :=
  ["InpaintPreprocessor"; "MeshGraphormer+ImpactDetector-DepthMapPreprocessor";
   "DiffusionEdge_Preprocessor"]
  ++ ["SavePoseKpsAsJsonFile"; "FacialPartColoringFromPoseKps";
      "UpperBodyTrackingFromPoseKps"; "RenderPeopleKps"; "RenderAnimalKps"]
  ++ ["Unimatch_OptFlowPreprocessor"; "MaskOptFlow"].

(** [l.remove(x)] for an [x] the list holds: the first occurrence goes. *)
Fixpoint list_remove (x : string) (l : list string) : list string :=
  match l with
  | [] => []
  | y :: r => if String.eqb x y then r else y :: list_remove x r
  end.

(** Lines 71-73, for any list of names to leave out. *)
Definition remove_names (names auxs : list string) : list string :=
  fold_left (fun auxs name => if str_in name auxs then list_remove name auxs else auxs)
            names auxs.

(** [preprocessor_options()], reading the global [AUX_NODE_MAPPINGS]. *)
Definition preprocessor_options (AUX_NODE_MAPPINGS : Dict.t aux_class)
  : list string :=
  let auxs := Dict.keys AUX_NODE_MAPPINGS in
  let auxs := "none" :: auxs in
  remove_names AIO_NOT_SUPPORTED auxs.

(** A call of [preprocessor_options()] as a step on the module state: the
    function copies the keys into a list of its own ([list(...)]) and only
    that list is changed, so the global registry the next call reads is the
    one this call read. *)
Definition preprocessor_options_call (AUX_NODE_MAPPINGS : Dict.t aux_class)
  : list string * Dict.t aux_class :=
  (preprocessor_options AUX_NODE_MAPPINGS, AUX_NODE_MAPPINGS).

(** ** The composer: [ExecuteAllControlNetPreprocessors.execute] *)

(** The host's [GraphBuilder] as the composer uses it: [node] appends a node
    under a fresh id, [out] names an output port of a node, [finalize]
    returns the nodes built.  A node input is a value given from outside
    or a link to an output port. *)
Inductive graph_input : Type :=
| Const (v : pyvalue)
| Link (node_id : nat) (index : nat).

Record graph_node : Type := {
  node_id : nat;
  class_type : string;
  inputs : Dict.t graph_input
}.

Record GraphBuilder : Type := {
  nodes : list graph_node;
  id_gen : nat
}.

Definition GraphBuilder_new : GraphBuilder := {| nodes := []; id_gen := 1 |}.

Definition graph_node_new (graph : GraphBuilder) (class_type : string)
    (inputs : Dict.t graph_input) : nat * GraphBuilder :=
  (id_gen graph,
   {| nodes := nodes graph ++
                 [{| node_id := id_gen graph; class_type := class_type;
                     inputs := inputs |}];
      id_gen := S (id_gen graph) |}).

Definition out (node : nat) (index : nat) : graph_input := Link node index.

Definition finalize (graph : GraphBuilder) : list graph_node := nodes graph.

(** Lines 165-168: the body of the loop over [PREPROCESSOR_OPTIONS]. *)
Definition fan_out_one (image resolution : pyvalue)
    (state : list graph_input * GraphBuilder) (preprocc : string)
  : list graph_input * GraphBuilder :=
  let (curr_outputs, graph) := state in
  let (preprocc_node, graph) :=
    graph_node_new graph "AIO_Preprocessor"
      [("preprocessor", Const (VStr preprocc)); ("image", Const image);
       ("resolution", Const resolution)] in
  let hint_img := out preprocc_node 0 in
  let (add_text_node, graph) :=
    graph_node_new graph "ControlNetAuxSimpleAddText"
      [("image", hint_img); ("text", Const (VStr preprocc))] in
  (curr_outputs ++ [out add_text_node 0], graph).

(** Lines 162-168. *)
Definition fan_out (PREPROCESSOR_OPTIONS : list string)
    (image resolution : pyvalue) : list graph_input * GraphBuilder :=
  fold_left (fan_out_one image resolution) PREPROCESSOR_OPTIONS
            ([], GraphBuilder_new).

(** Lines 171-177: one round, the loop over [range(0, len(curr_outputs), 2)]. *)
Fixpoint merge_pairs (curr_outputs : list graph_input) (graph : GraphBuilder)
  : list graph_input * GraphBuilder :=
  match curr_outputs with
  | a :: b :: rest =>
      let (image_batch, graph) :=
        graph_node_new graph "ImageBatch" [("image1", a); ("image2", b)] in
      let (_outputs, graph) := merge_pairs rest graph in
      (out image_batch 0 :: _outputs, graph)
  | [a] => ([a], graph)
  | [] => ([], graph)
  end.

(** Lines 170-178: the [while len(curr_outputs) > 1] loop.  A round leaves
    fewer outputs than it found, so [fuel = len(curr_outputs)] rounds are
    enough.  The first component is a record of the loop, the value of
    [curr_outputs] at each test of the loop condition. *)
Fixpoint merge_rounds (fuel : nat) (curr_outputs : list graph_input)
    (graph : GraphBuilder)
  : list (list graph_input) * (list graph_input * GraphBuilder) :=
  match fuel with
  | 0 => ([curr_outputs], (curr_outputs, graph))
  | S fuel' =>
      if (1 <? length curr_outputs)%nat then
        let (_outputs, graph) := merge_pairs curr_outputs graph in
        let (seen, final) := merge_rounds fuel' _outputs graph in
        (curr_outputs :: seen, final)
      else ([curr_outputs], (curr_outputs, graph))
  end.

Definition reduce_pairwise (curr_outputs : list graph_input) (graph : GraphBuilder)
  : list (list graph_input) * (list graph_input * GraphBuilder) :=
  merge_rounds (length curr_outputs) curr_outputs graph.

(** The dict the composer returns: ["result"] and ["expand"]. *)
Record expansion : Type := {
  out_result : list graph_input;
  out_expand : list graph_node
}.

Definition capability_missing : pyexc :=
  RuntimeError "ExecuteAllControlNetPreprocessor requries [Execution Model Inversion](https://github.com/comfyanonymous/ComfyUI/commit/5cfe38). Update ComfyUI/SwarmUI to get this feature".

(** [ExecuteAllControlNetPreprocessors.execute(self, image, resolution=512)].
    [graph_utils_importable] says whether
    [from comfy_execution.graph_utils import GraphBuilder] succeeds on the
    host. *)
Definition ExecuteAll_execute (graph_utils_importable : bool)
    (PREPROCESSOR_OPTIONS : list string)
    (image : pyvalue) (resolution : option pyvalue) : result expansion :=
  let resolution := or_default resolution (VInt 512) in
  if negb graph_utils_importable then Raise capability_missing
  else
    let (curr_outputs, graph) := fan_out PREPROCESSOR_OPTIONS image resolution in
    let (curr_outputs, graph) := snd (reduce_pairwise curr_outputs graph) in
    match curr_outputs with
    | first :: _ => Ok {| out_result := [first]; out_expand := finalize graph |}
    | [] => Raise (IndexError "list index out of range")
    end.

(** The nodes of a graph that have a given class. *)
Definition nodes_of_class (c : string) (g : list graph_node) : list graph_node :=
  filter (fun n => String.eqb (class_type n) c) g.

Definition is_capability_missing {A} (r : result A) : bool :=
  match r with
  | Raise (RuntimeError _) => true
  | _ => false
  end.

(** ** Predicates used in the statements *)

(** The default an entry declares: the ["default"] key of the options dict
    of a length-2 entry (line 112). *)
Definition declared_default (input_type : input_type) : option pyvalue :=
  match it_rest input_type with
  | [options] => Dict.get "default" options
  | _ => None
  end.

(** An entry that the loop hands to the type fallback: it is neither
    ["image"] nor ["resolution"] and declares no default. *)
Definition reaches_fallback (name : string) (input_type : input_type) : bool :=
  negb (String.eqb name "image") && negb (String.eqb name "resolution")
  && match declared_default input_type with Some _ => false | None => true end.

Definition is_type_name (v : pyvalue) : bool :=
  match v with VStr _ => true | _ => false end.

(** The value lines 104-123 bind to an entry whose type is a type name, if
    any. *)
Definition bound_value (image resolution : pyvalue) (name : string)
    (input_type : input_type) : option pyvalue :=
  if String.eqb name "image" then Some image
  else if String.eqb name "resolution" then Some resolution
  else
    match declared_default input_type with
    | Some d => Some d
    | None =>
        match it_type input_type with
        | VStr s => Dict.get s default_values
        | _ => None
        end
    end.

(** The arguments lines 102-123 build from a schema whose entries, where
    they reach the type fallback, have type names: each entry with a bound
    value is assigned in schema order. *)
Definition bound_params (image resolution : pyvalue)
    (input_types : Dict.t input_type) (params : Dict.t pyvalue)
  : Dict.t pyvalue :=
  fold_left
    (fun params item =>
       match bound_value image resolution (fst item) (snd item) with
       | Some v => Dict.set (fst item) v params
       | None => params
       end)
    input_types params.

(** A choice that is a key of [default_values]. *)
Definition is_default_key (v : pyvalue) : bool :=
  match v with
  | VStr s => Dict.mem s default_values
  | _ => false
  end.

(** The directory entries [load_nodes] tries to import, and how each one
    ends. *)
Definition attempted (node_wrappers : list candidate) : list candidate :=
  filter (fun c => negb (startswith_dot (stem c))) node_wrappers.

(** The exception that ends the [try] on a candidate, if any. *)
Definition raised_by (c : candidate) : option import_error :=
  snd (try_import load_start c).

Definition fails_generic (c : candidate) : bool :=
  match raised_by c with
  | Some (OtherException _) => true
  | _ => false
  end.

Definition fails_missing_attribute (c : candidate) : bool :=
  match raised_by c with
  | Some AttributeError => true
  | _ => false
  end.

(** What line 33 merges into the registry for a candidate: nothing unless
    the import succeeds and the module has the attribute. *)
Definition class_mappings_of (c : candidate) : list (string * aux_class) :=
  match import_module c with
  | Imported m =>
      match NODE_CLASS_MAPPINGS m with
      | Holds items _ => items
      | _ => []
      end
  | _ => []
  end.

(** What line 35 merges into the display names for a candidate: nothing
    unless line 33 ended without an exception. *)
Definition display_names_of (c : candidate) : list (string * string) :=
  match import_module c with
  | Imported m =>
      match NODE_CLASS_MAPPINGS m, NODE_DISPLAY_NAME_MAPPINGS m with
      | Holds _ None, Holds items _ => items
      | _, _ => []
      end
  | _ => []
  end.

Definition loads (c : candidate) : bool :=
  negb (fails_generic c) && negb (fails_missing_attribute c).

(** The two diagnostics a generic failure leaves (lines 42-47). *)
Definition full_diagnostic (c : candidate) : string :=
  match raised_by c with
  | Some (OtherException traceback_tail) => format_exc traceback_tail
  | _ => EmptyString
  end.

Definition short_diagnostic (c : candidate) : string :=
  match py_last (splitlines (full_diagnostic c)) with
  | Ok error_message =>
      ("Failed to import module " ++ stem c ++ " because " ++ error_message)%string
  | Raise _ => EmptyString
  end.

(** ** Sample units and registries *)
Module Examples.

Definition IMAGE : input_type := {| it_type := VStr "IMAGE"; it_rest := [] |}.

Definition RESOLUTION : input_type :=
  {| it_type := VStr "INT";
     it_rest := [[("default", VInt 512); ("min", VInt 64);
                  ("max", VInt 16384); ("step", VInt 64)]] |}.

Definition INT_default (d : Z) : input_type :=
  {| it_type := VStr "INT"; it_rest := [[("default", VInt d)]] |}.

Definition the_image : pyvalue := VObj 0.
Definition hint_image : pyvalue := VObj 1.
Definition the_cnmodel : pyvalue := VObj 2.

(** A unit in the style of the Canny wrapper: two thresholds with
    declared defaults; it returns a plain tuple. *)
Definition Canny : aux_class :=
  {| INPUT_TYPES :=
       {| required := [("image", IMAGE)];
          optional := Some [("low_threshold", INT_default 100);
                            ("high_threshold", INT_default 200);
                            ("resolution", RESOLUTION)] |};
     FUNCTION := fun _ => Ok (VTuple [hint_image]) |}.

(** A unit whose entry point returns a structured record. *)
Definition Expander : aux_class :=
  {| INPUT_TYPES :=
       {| required := [("image", IMAGE)];
          optional := Some [("resolution", RESOLUTION)] |};
     FUNCTION := fun _ =>
       Ok (VDict [("result", VTuple [hint_image]); ("expand", VDict [])]) |}.

(** A unit with a required mask that has no default and no zero value. *)
Definition Masked : aux_class :=
  {| INPUT_TYPES :=
       {| required := [("image", IMAGE);
                       ("mask", {| it_type := VStr "MASK"; it_rest := [] |})];
          optional := None |};
     FUNCTION := fun params =>
       match Dict.get "mask" params with
       | Some _ => Ok (VTuple [hint_image])
       | None => Raise (TypeError "missing 1 required positional argument")
       end |}.

(** A unit with a combo that declares no default and offers a choice
    named like a key of [default_values]. *)
Definition Typed : aux_class :=
  {| INPUT_TYPES :=
       {| required := [("image", IMAGE);
                       ("dtype", {| it_type := VList [VStr "INT"; VStr "FLOAT"];
                                    it_rest := [] |})];
          optional := Some [("resolution", RESOLUTION)] |};
     FUNCTION := fun _ => Ok (VTuple [hint_image]) |}.

Definition five_units : Dict.t aux_class :=
  [("CannyEdgePreprocessor", Canny); ("HEDPreprocessor", Canny);
   ("LineArtPreprocessor", Canny); ("MiDaS-DepthMapPreprocessor", Canny);
   ("OpenposePreprocessor", Canny)].

Definition with_excluded : Dict.t aux_class :=
  [("CannyEdgePreprocessor", Canny); ("InpaintPreprocessor", Masked);
   ("HEDPreprocessor", Canny); ("MaskOptFlow", Masked)].

Definition registry : Dict.t aux_class :=
  [("CannyEdgePreprocessor", Canny); ("Expander", Expander);
   ("Masked", Masked); ("Typed", Typed)].

Definition the_prompt (style : string) : pyvalue :=
  VDict [("7", VDict [("inputs", VDict [("select_styles", VStr style)]);
                      ("class_type", VStr "ControlNetPreprocessorSelector")])].

Definition load_controlnet (cn : pyvalue) : result pyvalue := Ok the_cnmodel.

Definition directory : list candidate :=
  [ {| stem := ".DS_Store"; import_module := ImportRaises (OtherException "x") |};
    {| stem := "canny";
       import_module :=
         Imported {| NODE_CLASS_MAPPINGS :=
                       Holds [("CannyEdgePreprocessor", Canny)] None;
                     NODE_DISPLAY_NAME_MAPPINGS :=
                       Holds [("CannyEdgePreprocessor", "Canny Edge")] None |} |};
    {| stem := "broken";
       import_module :=
         ImportRaises
           (OtherException ("ModuleNotFoundError: No module named 'mediapipe'"
                              ++ newline)%string) |};
    {| stem := "wip";
       import_module :=
         Imported {| NODE_CLASS_MAPPINGS := Missing;
                     NODE_DISPLAY_NAME_MAPPINGS := Missing |} |};
    {| stem := "unfinished"; import_module := ImportRaises AttributeError |};
    {| stem := "expander";
       import_module :=
         Imported {| NODE_CLASS_MAPPINGS := Holds [("Expander", Expander)] None;
                     NODE_DISPLAY_NAME_MAPPINGS := Missing |} |} ].

End Examples.

(** ** The node tables of the package (lines 268-283) *)

(** The classes of the package's own four nodes. *)
Inductive own_class : Type :=
| AIO_Preprocessor
| ControlNetPreprocessorSelector
| ExecuteAllControlNetPreprocessors
| ControlNetAuxSimpleAddText.

(** A value of the node table: a discovered unit, one of the package's own
    nodes, or a class of [hint_image_enchance], whose classes have type
    [H]. *)
Inductive node_class (H : Type) : Type :=
| AuxClass (u : aux_class)
| OwnClass (c : own_class)
| HieClass (h : H).
Arguments AuxClass {H} u.
Arguments OwnClass {H} c.
Arguments HieClass {H} h.

(** [NODE_CLASS_MAPPINGS]: the dict display inserts its items from left to
    right. *)
Definition NODE_CLASS_MAPPINGS_of {H} (AUX_NODE_MAPPINGS : Dict.t aux_class)
    (HIE_NODE_CLASS_MAPPINGS : list (string * H)) : Dict.t (node_class H) :=
  Dict.of_items
    (map (fun kv => (fst kv, AuxClass (snd kv))) AUX_NODE_MAPPINGS
     ++ [("AIO_Preprocessor", OwnClass AIO_Preprocessor);
         ("ControlNetPreprocessorSelector", OwnClass ControlNetPreprocessorSelector)]
     ++ map (fun kv => (fst kv, HieClass (snd kv))) HIE_NODE_CLASS_MAPPINGS
     ++ [("ExecuteAllControlNetPreprocessors",
          OwnClass ExecuteAllControlNetPreprocessors);
         ("ControlNetAuxSimpleAddText", OwnClass ControlNetAuxSimpleAddText)]).

(** [NODE_DISPLAY_NAME_MAPPINGS]. *)
Definition NODE_DISPLAY_NAME_MAPPINGS_of
    (AUX_DISPLAY_NAME_MAPPINGS : Dict.t string)
    (HIE_NODE_DISPLAY_NAME_MAPPINGS : list (string * string)) : Dict.t string :=
  Dict.of_items
    (AUX_DISPLAY_NAME_MAPPINGS
     ++ [("AIO_Preprocessor", "AIO Aux Preprocessor");
         ("ControlNetPreprocessorSelector", "Preprocessor Selector")]
     ++ HIE_NODE_DISPLAY_NAME_MAPPINGS
     ++ [("ExecuteAllControlNetPreprocessors",
          "Execute All ControlNet Preprocessors")]).

(** The nodes whose output ports a node reads. *)
Definition linked_ids (n : graph_node) : list nat :=
  flat_map (fun input =>
              match snd input with
              | Link id _ => [id]
              | Const _ => []
              end)
           (inputs n).

(** A graph under construction is well formed when its nodes carry the ids
    1, 2, ... in the order they were added, the next id is the one after
    the last, and every node reads only nodes added before it. *)
Definition graph_wf (graph : GraphBuilder) : Prop :=
  map node_id (nodes graph) = seq 1 (length (nodes graph))
  /\ id_gen graph = S (length (nodes graph))
  /\ Forall (fun n => Forall (fun id => 1 <= id < node_id n) (linked_ids n))
       (nodes graph).

(** Outputs that are port 0 of nodes of the graph. *)
Definition outputs_in (graph : GraphBuilder) (outs : list graph_input) : Prop :=
  Forall (fun o => exists id, o = Link id 0 /\ 1 <= id < id_gen graph) outs.

Module MoreExamples.

(** A unit with a combo that declares no default and whose choices are not
    keys of [default_values]. *)
Definition Scheduled : aux_class :=
  {| INPUT_TYPES :=
       {| required :=
            [("image", Examples.IMAGE);
             ("schedule", {| it_type := VList [VStr "linear"; VStr "cosine"];
                             it_rest := [] |})];
          optional := Some [("resolution", Examples.RESOLUTION)] |};
     FUNCTION := fun _ => Ok (VTuple [Examples.hint_image]) |}.

(** A unit that declares "resolution" in both groups. *)
Definition Redeclared : aux_class :=
  {| INPUT_TYPES :=
       {| required := [("image", Examples.IMAGE);
                       ("resolution", Examples.INT_default 256)];
          optional := Some [("resolution", Examples.RESOLUTION);
                            ("strength", {| it_type := VStr "FLOAT";
                                            it_rest := [] |})] |};
     FUNCTION := fun _ => Ok (VTuple [Examples.hint_image]) |}.

(** A module whose class table is a dict and whose display names are not
    a mapping: line 33 merges the class, line 35 raises. *)
Definition partial : candidate :=
  {| stem := "partial";
     import_module :=
       Imported
         {| NODE_CLASS_MAPPINGS := Holds [("Partial", Examples.Canny)] None;
            NODE_DISPLAY_NAME_MAPPINGS :=
              Holds [] (Some (OtherException
                                ("TypeError: 'int' object is not iterable"
                                   ++ newline)%string)) |} |}.

(** A module whose traceback holds a line separator (U+2028) in its last
    line. *)
Definition separated : candidate :=
  {| stem := "separated";
     import_module :=
       ImportRaises
         (OtherException
            ("ValueError: first"
               ++ String (ascii_of_nat 226)
                    (String (ascii_of_nat 128)
                       (String (ascii_of_nat 168) EmptyString))
               ++ "third")%string) |}.

End MoreExamples.

(** ** Facts about dictionaries *)

Lemma str_in_In (s : string) (l : list string) :
  str_in s l = true <-> In s l.
Proof.
  unfold str_in. rewrite existsb_exists. split.
  - intros [x [Hx He]]. apply String.eqb_eq in He. now subst.
  - intros H. exists s. split; [assumption | apply String.eqb_refl].
Qed.

Lemma str_in_false (s : string) (l : list string) :
  str_in s l = false <-> ~ In s l.
Proof.
  rewrite <- str_in_In. destruct (str_in s l); split; congruence.
Qed.

Section DictFacts.
Context {V : Type}.
Implicit Types (d : Dict.t V) (k : string) (v : V).

Lemma get_set_same k v d : Dict.get k (Dict.set k v d) = Some v.
Proof.
  induction d as [|[k' v'] r IH]; simpl.
  - now rewrite String.eqb_refl.
  - destruct (String.eqb k k') eqn:E; simpl.
    + now rewrite String.eqb_refl.
    + now rewrite E.
Qed.

Lemma get_set_other k k' v d :
  k <> k' -> Dict.get k (Dict.set k' v d) = Dict.get k d.
Proof.
  intros Hne. apply String.eqb_neq in Hne.
  induction d as [|[k2 v2] r IH]; simpl.
  - now rewrite Hne.
  - destruct (String.eqb k' k2) eqn:E; simpl.
    + apply String.eqb_eq in E. subst k2. now rewrite Hne.
    + destruct (String.eqb k k2); [reflexivity | exact IH].
Qed.

Lemma get_None_keys k d : Dict.get k d = None <-> ~ In k (Dict.keys d).
Proof.
  induction d as [|[k' v'] r IH]; simpl.
  - tauto.
  - destruct (String.eqb k k') eqn:E.
    + apply String.eqb_eq in E. subst. split; [discriminate | tauto].
    + apply String.eqb_neq in E. rewrite IH. split.
      * intros H [H1 | H1]; [congruence | tauto].
      * tauto.
Qed.

Lemma mem_keys k d : Dict.mem k d = true <-> In k (Dict.keys d).
Proof.
  unfold Dict.mem. destruct (Dict.get k d) eqn:E.
  - split; [intros _ | reflexivity].
    destruct (in_dec string_dec k (Dict.keys d)) as [Hin | Hout]; [assumption|].
    apply get_None_keys in Hout. congruence.
  - apply get_None_keys in E. split; [discriminate | tauto].
Qed.

Lemma keys_set_present k v d :
  In k (Dict.keys d) -> Dict.keys (Dict.set k v d) = Dict.keys d.
Proof.
  induction d as [|[k' v'] r IH]; simpl; [tauto|].
  intros H. destruct (String.eqb k k') eqn:E; simpl.
  - apply String.eqb_eq in E. now subst.
  - apply String.eqb_neq in E. f_equal. apply IH.
    destruct H; [congruence | assumption].
Qed.

Lemma keys_set_absent k v d :
  ~ In k (Dict.keys d) -> Dict.keys (Dict.set k v d) = Dict.keys d ++ [k].
Proof.
  induction d as [|[k' v'] r IH]; simpl; [reflexivity|].
  intros H. destruct (String.eqb k k') eqn:E; simpl.
  - apply String.eqb_eq in E. subst. tauto.
  - f_equal. apply IH. tauto.
Qed.

Lemma keys_set_NoDup k v d :
  NoDup (Dict.keys d) -> NoDup (Dict.keys (Dict.set k v d)).
Proof.
  intros H. destruct (in_dec string_dec k (Dict.keys d)) as [Hin | Hout].
  - now rewrite keys_set_present.
  - rewrite keys_set_absent by assumption.
    apply NoDup_app; [assumption | repeat constructor; simpl; tauto |].
    intros x Hx [Hk | []]. subst. tauto.
Qed.

Lemma In_keys_set k k' v d :
  In k (Dict.keys (Dict.set k' v d)) <-> k = k' \/ In k (Dict.keys d).
Proof.
  destruct (in_dec string_dec k' (Dict.keys d)) as [Hin | Hout].
  - rewrite keys_set_present by assumption. split; [tauto|].
    intros [-> | H]; assumption.
  - rewrite keys_set_absent by assumption. rewrite in_app_iff. simpl.
    split; [intros [H | [H | []]]; auto | intros [H | H]; auto].
Qed.

Lemma keys_update_NoDup (l : list (string * V)) d :
  NoDup (Dict.keys d) -> NoDup (Dict.keys (Dict.update d l)).
Proof.
  revert d. induction l as [|[k v] l IH]; intros d H; simpl; [assumption|].
  apply IH. now apply keys_set_NoDup.
Qed.

Lemma In_keys_update (l : list (string * V)) d k :
  In k (Dict.keys (Dict.update d l)) <-> In k (Dict.keys d) \/ In k (map fst l).
Proof.
  unfold Dict.update. revert d.
  induction l as [|[k' v] l IH]; intros d; simpl; [tauto|].
  rewrite IH, In_keys_set. intuition auto.
Qed.

Lemma keys_of_items_NoDup (l : list (string * V)) :
  NoDup (Dict.keys (Dict.of_items l)).
Proof. apply keys_update_NoDup. constructor. Qed.
End DictFacts.

(** ** The composer *)

Lemma remove_names_absent (names auxs : list string) :
  (forall n, In n names -> ~ In n auxs) -> remove_names names auxs = auxs.
Proof.
  unfold remove_names. induction names as [|n names IH]; intros H; simpl.
  - reflexivity.
  - assert (E : str_in n auxs = false).
    { apply str_in_false. apply H. now left. }
    rewrite E. apply IH. intros m Hm. apply H. now right.
Qed.

Lemma none_is_supported : str_in "none" AIO_NOT_SUPPORTED = false.
Proof. reflexivity. Qed.

Lemma preprocessor_options_nothing_excluded (reg : Dict.t aux_class) :
  (forall name, In name (Dict.keys reg) -> str_in name AIO_NOT_SUPPORTED = false) ->
  preprocessor_options reg = "none" :: Dict.keys reg.
Proof.
  intros H. unfold preprocessor_options. apply remove_names_absent.
  intros n Hn [Hnone | Hkey].
  - subst n. apply str_in_In in Hn. rewrite none_is_supported in Hn. discriminate.
  - apply str_in_In in Hn. rewrite (H n Hkey) in Hn. discriminate.
Qed.

(** C9. Without the host's graph builder the composer raises the
    capability error at once, with no graph built and no other result; with
    the graph builder that error is never what the composer returns, for
    any option list, image and resolution. *)
Theorem composer_capability_check
    (opts : list string) (image : pyvalue) (resolution : option pyvalue) :
  ExecuteAll_execute false opts image resolution = Raise capability_missing
  /\ is_capability_missing (ExecuteAll_execute true opts image resolution) = false.
Proof.
  split; [reflexivity|].
  unfold ExecuteAll_execute. simpl negb. cbv iota.
  destruct (fan_out opts image (or_default resolution (VInt 512))) as [outs g].
  destruct (snd (reduce_pairwise outs g)) as [[|first rest] g']; reflexivity.
Qed.

(** C8 (as the code has it). Over a registry with no unit the composer does
    not fail: the option list still holds the sentinel "none", so the graph
    has one dispatch node for "none" and one label node on its output, no
    merge node, and the result is the label node's output. *)
Theorem composer_empty_registry (image : pyvalue) (resolution : option pyvalue) :
  ExecuteAll_execute true (preprocessor_options []) image resolution =
  Ok {| out_result := [Link 2 0];
        out_expand :=
          [ {| node_id := 1; class_type := "AIO_Preprocessor";
               inputs := [("preprocessor", Const (VStr "none"));
                          ("image", Const image);
                          ("resolution", Const (or_default resolution (VInt 512)))] |};
            {| node_id := 2; class_type := "ControlNetAuxSimpleAddText";
               inputs := [("image", Link 1 0);
                          ("text", Const (VStr "none"))] |} ] |}.
Proof. reflexivity. Qed.

(** C8, the claim as stated fails: over the empty registry the composer
    neither fails, nor returns an empty graph, nor returns the input image
    itself. *)
Lemma composer_empty_registry_not_identity :
  ~ (is_ok (ExecuteAll_execute true (preprocessor_options []) Examples.the_image None)
       = false
     \/ exists r,
          ExecuteAll_execute true (preprocessor_options []) Examples.the_image None
            = Ok r
          /\ (out_expand r = [] \/ out_result r = [Const Examples.the_image])).
Proof.
  intros [H | [r [Hr [H | H]]]].
  - vm_compute in H. discriminate.
  - vm_compute in Hr. injection Hr as <-. discriminate.
  - vm_compute in Hr. injection Hr as <-. discriminate.
Qed.

(** C3 (as the code has it). Over a registry of exactly 5 units, none of
    them excluded, the option list has 6 entries (the sentinel "none" and
    the 5 names); the graph holds 6 label-overlay nodes, the reduction sees
    sequences of lengths 6, 3, 2, 1, that is 3 merge rounds, and the result
    is the single output of the last merge node. *)
Theorem composer_five_units
    (reg : Dict.t aux_class) (image : pyvalue) (resolution : option pyvalue) :
  length (Dict.keys reg) = 5 ->
  (forall name, In name (Dict.keys reg) -> str_in name AIO_NOT_SUPPORTED = false) ->
  let opts := preprocessor_options reg in
  let fanned := fan_out opts image (or_default resolution (VInt 512)) in
  let reduced := reduce_pairwise (fst fanned) (snd fanned) in
  length opts = 6
  /\ map (@length graph_input) (fst reduced) = [6; 3; 2; 1]
  /\ fst (snd reduced) = [Link 17 0]
  /\ exists graph,
       ExecuteAll_execute true opts image resolution
         = Ok {| out_result := [Link 17 0]; out_expand := graph |}
       /\ length (nodes_of_class "ControlNetAuxSimpleAddText" graph) = 6
       /\ length (nodes_of_class "AIO_Preprocessor" graph) = 6
       /\ length (nodes_of_class "ImageBatch" graph) = 5.
Proof.
  intros Hlen Hsup. cbv zeta.
  rewrite (preprocessor_options_nothing_excluded reg Hsup).
  unfold Dict.keys in *.
  destruct reg as [|[n1 u1] [|[n2 u2] [|[n3 u3] [|[n4 u4] [|[n5 u5] [|x r]]]]]];
    try discriminate Hlen.
  clear. cbv.
  split; [reflexivity|]. split; [reflexivity|]. split; [reflexivity|].
  eexists. split; [reflexivity|]. cbv. repeat split.
Qed.

(** C3, the claim as stated fails: for five registered units the graph has
    six label-overlay nodes and the first sequence has six items. *)
Lemma composer_five_units_not_five_overlays :
  ~ (exists r,
       ExecuteAll_execute true (preprocessor_options Examples.five_units)
         Examples.the_image None = Ok r
       /\ length (nodes_of_class "ControlNetAuxSimpleAddText" (out_expand r)) = 5
       /\ map (@length graph_input)
            (fst (reduce_pairwise
                    (fst (fan_out (preprocessor_options Examples.five_units)
                            Examples.the_image (VInt 512)))
                    (snd (fan_out (preprocessor_options Examples.five_units)
                            Examples.the_image (VInt 512)))))
          = [5; 3; 2; 1]).
Proof.
  intros [r [Hr [Hn _]]]. vm_compute in Hr. injection Hr as <-.
  vm_compute in Hn. discriminate.
Qed.

Lemma composer_five_units_witness :
  let reg := Examples.five_units in
  let opts := preprocessor_options reg in
  let fanned := fan_out opts Examples.the_image (or_default None (VInt 512)) in
  let reduced := reduce_pairwise (fst fanned) (snd fanned) in
  length opts = 6
  /\ map (@length graph_input) (fst reduced) = [6; 3; 2; 1]
  /\ fst (snd reduced) = [Link 17 0]
  /\ exists graph,
       ExecuteAll_execute true opts Examples.the_image None
         = Ok {| out_result := [Link 17 0]; out_expand := graph |}
       /\ length (nodes_of_class "ControlNetAuxSimpleAddText" graph) = 6
       /\ length (nodes_of_class "AIO_Preprocessor" graph) = 6
       /\ length (nodes_of_class "ImageBatch" graph) = 5.
Proof.
  apply (composer_five_units Examples.five_units Examples.the_image None).
  - reflexivity.
  - intros name H. simpl in H.
    repeat (destruct H as [<- | H]; [reflexivity|]). destruct H.
Defined.

(** ** The option list *)

Lemma filter_absent (x : string) (l : list string) :
  ~ In x l -> filter (fun y => negb (String.eqb x y)) l = l.
Proof.
  induction l as [|y l IH]; simpl; intros H; [reflexivity|].
  destruct (String.eqb x y) eqn:E.
  - apply String.eqb_eq in E. subst. tauto.
  - simpl. f_equal. apply IH. tauto.
Qed.

Lemma list_remove_filter (x : string) (l : list string) :
  count_occ string_dec l x <= 1 ->
  list_remove x l = filter (fun y => negb (String.eqb x y)) l.
Proof.
  induction l as [|y l IH]; simpl; intros H; [reflexivity|].
  destruct (string_dec y x) as [-> | Hne].
  - rewrite String.eqb_refl. simpl. symmetry. apply filter_absent.
    apply (count_occ_not_In string_dec). lia.
  - assert (E : String.eqb x y = false) by (apply String.eqb_neq; congruence).
    rewrite E. simpl. f_equal. now apply IH.
Qed.

Lemma count_occ_filter_le (f : string -> bool) (x : string) (l : list string) :
  count_occ string_dec (filter f l) x <= count_occ string_dec l x.
Proof.
  induction l as [|y l IH]; simpl; [lia|].
  destruct (f y); simpl; destruct (string_dec y x); lia.
Qed.

Lemma filter_filter_names (n : string) (ns auxs : list string) :
  filter (fun y => negb (str_in y ns)) (filter (fun y => negb (String.eqb n y)) auxs)
  = filter (fun y => negb (str_in y (n :: ns))) auxs.
Proof.
  induction auxs as [|a auxs IH]; simpl; [reflexivity|].
  rewrite (String.eqb_sym a n).
  destruct (String.eqb n a); simpl; [exact IH|].
  destruct (str_in a ns); simpl; [exact IH | now f_equal].
Qed.

(** The loop of lines 71-73 is a filter when no name to remove occurs twice
    in the list. *)
Lemma remove_names_filter (names auxs : list string) :
  (forall n, In n names -> count_occ string_dec auxs n <= 1) ->
  remove_names names auxs = filter (fun y => negb (str_in y names)) auxs.
Proof.
  unfold remove_names. revert auxs.
  induction names as [|n ns IH]; intros auxs H; simpl fold_left.
  - clear H. induction auxs as [|a auxs IHa]; simpl; [reflexivity | now f_equal].
  - assert (E : (if str_in n auxs then list_remove n auxs else auxs)
                = filter (fun y => negb (String.eqb n y)) auxs).
    { destruct (str_in n auxs) eqn:Hin.
      - apply list_remove_filter. apply H. now left.
      - symmetry. apply filter_absent. now apply str_in_false. }
    rewrite E, IH.
    + apply filter_filter_names.
    + intros m Hm.
      eapply Nat.le_trans; [apply count_occ_filter_le | apply H; now right].
Qed.

Lemma NoDup_count_le (l : list string) (x : string) :
  NoDup l -> count_occ string_dec l x <= 1.
Proof. intros H. now apply (NoDup_count_occ string_dec). Qed.

Lemma preprocessor_options_filter (reg : Dict.t aux_class) :
  NoDup (Dict.keys reg) ->
  preprocessor_options reg =
  "none" :: filter (fun name => negb (str_in name AIO_NOT_SUPPORTED)) (Dict.keys reg).
Proof.
  intros Hnd. unfold preprocessor_options. rewrite remove_names_filter.
  - change (filter _ ("none" :: Dict.keys reg))
      with (if negb (str_in "none" AIO_NOT_SUPPORTED)
            then "none" :: filter (fun y => negb (str_in y AIO_NOT_SUPPORTED))
                             (Dict.keys reg)
            else filter (fun y => negb (str_in y AIO_NOT_SUPPORTED)) (Dict.keys reg)).
    now rewrite none_is_supported.
  - intros n Hn.
    destruct (string_dec "none" n) as [<- | Hne].
    + apply str_in_In in Hn. rewrite none_is_supported in Hn. discriminate.
    + rewrite count_occ_cons_neq by exact Hne. now apply NoDup_count_le.
Qed.

(** C7. For every registry (a dict: its keys are distinct) the option list
    is the sentinel "none" followed by the registered names, in registry
    order, that are not in the exclusion list of the module; so a name is
    listed exactly when it is "none" or registered and not excluded, and
    "none" comes first.  A call leaves the registry as it was, so a second
    call gives the same list; and removing the excluded names from the list
    again changes nothing. *)
Theorem preprocessor_options_spec (reg : Dict.t aux_class) :
  NoDup (Dict.keys reg) ->
  preprocessor_options reg =
    "none" :: filter (fun name => negb (str_in name AIO_NOT_SUPPORTED)) (Dict.keys reg)
  /\ hd_error (preprocessor_options reg) = Some "none"
  /\ (forall name,
        In name (preprocessor_options reg) <->
        name = "none" \/ (In name (Dict.keys reg) /\ ~ In name AIO_NOT_SUPPORTED))
  /\ (let (first, reg') := preprocessor_options_call reg in
      let (second, reg'') := preprocessor_options_call reg' in
      second = first /\ reg'' = reg)
  /\ remove_names AIO_NOT_SUPPORTED (preprocessor_options reg)
     = preprocessor_options reg.
Proof.
  intros Hnd. pose proof (preprocessor_options_filter reg Hnd) as E.
  split; [exact E|]. split; [now rewrite E|]. split; [|split].
  - intros name. rewrite E. split.
    + intros [H | H]; [now left|]. right.
      apply filter_In in H. destruct H as [H1 H2].
      apply negb_true_iff, str_in_false in H2. now split.
    + intros [H | [H1 H2]]; [now left|]. right.
      apply filter_In. split; [assumption|].
      now apply negb_true_iff, str_in_false.
  - simpl. split; reflexivity.
  - apply remove_names_absent. intros n Hn Hin. rewrite E in Hin.
    destruct Hin as [<- | Hin].
    + apply str_in_In in Hn. rewrite none_is_supported in Hn. discriminate.
    + apply filter_In in Hin. destruct Hin as [_ Hin].
      apply negb_true_iff, str_in_false in Hin. tauto.
Qed.

Lemma preprocessor_options_spec_witness :
  NoDup (Dict.keys Examples.with_excluded)
  /\ preprocessor_options Examples.with_excluded
     = ["none"; "CannyEdgePreprocessor"; "HEDPreprocessor"].
Proof.
  assert (Hnd : NoDup (Dict.keys Examples.with_excluded)).
  { simpl. repeat constructor; simpl; intuition discriminate. }
  split; [exact Hnd|].
  rewrite (proj1 (preprocessor_options_spec Examples.with_excluded Hnd)).
  reflexivity.
Defined.

(** ** Dispatch with the sentinel *)

(** C10. With [preprocessor = "none"] the unified dispatch returns the
    one-item tuple of the input image, for every registry, image and
    resolution, and its event log is empty: no registry lookup, no schema
    query, no unit call. *)
Theorem AIO_execute_none
    (reg : Dict.t aux_class) (image : pyvalue) (resolution : option pyvalue) :
  AIO_execute reg (VStr "none") image resolution = ([], Ok (VTuple [image])).
Proof. reflexivity. Qed.

(** ** Discovery *)

Lemma splitlines_from_cons (line : string) (c : ascii) (rest : string) :
  splitlines_from line (String c rest) =
  if is_linebreak c then
    line ::
      match rest with
      | String c' rest' =>
          if ((nat_of_ascii c =? 13) && (nat_of_ascii c' =? 10))%nat
          then splitlines_from EmptyString rest'
          else splitlines_from EmptyString rest
      | EmptyString => splitlines_from EmptyString rest
      end
  else
    match rest with
    | String c1 rest1 =>
        if is_next_line c c1 then line :: splitlines_from EmptyString rest1
        else
          match rest1 with
          | String c2 rest2 =>
              if is_separator c c1 c2
              then line :: splitlines_from EmptyString rest2
              else splitlines_from (line ++ String c EmptyString)%string rest
          | EmptyString =>
              splitlines_from (line ++ String c EmptyString)%string rest
          end
    | EmptyString =>
        splitlines_from (line ++ String c EmptyString)%string rest
    end.
Proof. reflexivity. Qed.

Lemma append_char_nonempty (line : string) (c : ascii) :
  (line ++ String c EmptyString)%string <> EmptyString.
Proof. destruct line; discriminate. Qed.

Lemma splitlines_from_nonempty (line s : string) :
  line <> EmptyString -> splitlines_from line s <> [].
Proof.
  revert line. induction s as [|c rest IH]; intros line H.
  - destruct line; [congruence | discriminate].
  - rewrite splitlines_from_cons.
    destruct (is_linebreak c); [discriminate|].
    destruct rest as [|c1 rest1]; [apply IH, append_char_nonempty|].
    destruct (is_next_line c c1); [discriminate|].
    destruct rest1 as [|c2 rest2]; [apply IH, append_char_nonempty|].
    destruct (is_separator c c1 c2); [discriminate|].
    apply IH, append_char_nonempty.
Qed.

Lemma splitlines_nonempty (s : string) :
  s <> EmptyString -> splitlines s <> [].
Proof.
  unfold splitlines. destruct s as [|c rest]; intros H; [congruence|].
  rewrite splitlines_from_cons.
  destruct (is_linebreak c); [discriminate|].
  destruct rest as [|c1 rest1];
    [apply splitlines_from_nonempty, append_char_nonempty|].
  destruct (is_next_line c c1); [discriminate|].
  destruct rest1 as [|c2 rest2];
    [apply splitlines_from_nonempty, append_char_nonempty|].
  destruct (is_separator c c1 c2); [discriminate|].
  apply splitlines_from_nonempty, append_char_nonempty.
Qed.

(** The formatted traceback always has a last line. *)
Lemma last_line_of_traceback (traceback_tail : string) :
  exists line, py_last (splitlines (format_exc traceback_tail)) = Ok line.
Proof.
  assert (Hne : splitlines (format_exc traceback_tail) <> []).
  { apply splitlines_nonempty. unfold format_exc.
    change ("Traceback (most recent call last):" ++ newline ++ traceback_tail)%string
      with (String "T" ("raceback (most recent call last):" ++ newline
                          ++ traceback_tail)%string).
    discriminate. }
  unfold py_last.
  destruct (rev (splitlines (format_exc traceback_tail))) as [|x l] eqn:E.
  - exfalso. apply Hne. apply (f_equal (@rev string)) in E.
    now rewrite rev_involutive in E.
  - now exists x.
Qed.

(** Every line boundary of [str.splitlines] cuts the text, the ones that
    take two or three bytes too. *)
Example splitlines_boundaries :
  splitlines ("a" ++ String (ascii_of_nat 13) newline ++ "b"
                ++ String (ascii_of_nat 194)
                     (String (ascii_of_nat 133) EmptyString)
                ++ "c"
                ++ String (ascii_of_nat 226)
                     (String (ascii_of_nat 128)
                        (String (ascii_of_nat 169) EmptyString))
                ++ "d" ++ newline)%string
  = ["a"; "b"; "c"; "d"].
Proof. vm_compute. reflexivity. Qed.


Lemma attempted_cons (c : candidate) (l : list candidate) :
  attempted (c :: l) =
  if startswith_dot (stem c) then attempted l else c :: attempted l.
Proof. unfold attempted. simpl. now destruct (startswith_dot (stem c)). Qed.

Lemma attempted_app (l1 l2 : list candidate) :
  attempted (l1 ++ l2) = attempted l1 ++ attempted l2.
Proof. apply filter_app. Qed.

(** The [try] from any state of the locals: the diagnostics are untouched,
    the tables receive what lines 33 and 35 merge, and the exception is the
    one the candidate raises from the initial state. *)
Lemma try_import_spec (st : load_state) (c : candidate) :
  try_import st c =
  ({| shorted_errors := shorted_errors st;
      full_error_messages := full_error_messages st;
      node_class_mappings :=
        Dict.update (node_class_mappings st) (class_mappings_of c);
      node_display_name_mappings :=
        Dict.update (node_display_name_mappings st) (display_names_of c) |},
   raised_by c).
Proof.
  destruct st as [se fe ncm ndm].
  unfold raised_by, try_import, class_mappings_of, display_names_of.
  destruct (import_module c) as [e | m]; [reflexivity|].
  destruct (NODE_CLASS_MAPPINGS m) as [|tb|items [e|]]; try reflexivity.
  destruct (NODE_DISPLAY_NAME_MAPPINGS m); reflexivity.
Qed.

(** One iteration: it never raises; a generic failure adds one entry to
    each diagnostics list, the tables receive what the candidate merged
    before its [try] ended, and nothing else changes. *)
Lemma load_one_step (st : load_state) (c : candidate) :
  exists st',
    load_one st c = Ok st'
    /\ shorted_errors st' =
       shorted_errors st
       ++ map short_diagnostic (filter fails_generic (attempted [c]))
    /\ full_error_messages st' =
       full_error_messages st
       ++ map full_diagnostic (filter fails_generic (attempted [c]))
    /\ node_class_mappings st' =
       fold_left Dict.update (map class_mappings_of (attempted [c]))
         (node_class_mappings st)
    /\ node_display_name_mappings st' =
       fold_left Dict.update (map display_names_of (attempted [c]))
         (node_display_name_mappings st).
Proof.
  unfold load_one, attempted. cbn [filter].
  destruct (startswith_dot (stem c)); cbn [negb filter map fold_left].
  { exists st. rewrite !app_nil_r. now repeat split. }
  rewrite try_import_spec. unfold fails_generic.
  destruct (raised_by c) as [[|tb]|] eqn:Hr; cbn [filter map].
  - eexists. split; [reflexivity|].
    cbn [shorted_errors full_error_messages node_class_mappings
           node_display_name_mappings].
    rewrite !app_nil_r. now repeat split.
  - destruct (last_line_of_traceback tb) as [line Hline].
    assert (Hfull : full_diagnostic c = format_exc tb).
    { unfold full_diagnostic. now rewrite Hr. }
    assert (Hshort : short_diagnostic c =
             ("Failed to import module " ++ stem c ++ " because " ++ line)%string).
    { unfold short_diagnostic. now rewrite Hfull, Hline. }
    rewrite Hline, Hfull, Hshort. cbn [bind]. eexists.
    split; [reflexivity|].
    cbn [shorted_errors full_error_messages node_class_mappings
           node_display_name_mappings].
    now repeat split.
  - eexists. split; [reflexivity|].
    cbn [shorted_errors full_error_messages node_class_mappings
           node_display_name_mappings].
    rewrite !app_nil_r. now repeat split.
Qed.

(** The loop from any state of the locals: it ends, each generic failure
    adds its two diagnostics, in directory order, and the tables receive
    what each candidate merged. *)
Lemma load_loop_from (files : list candidate) (st : load_state) :
  exists st',
    for_each files st load_one = Ok st'
    /\ shorted_errors st' =
       shorted_errors st
       ++ map short_diagnostic (filter fails_generic (attempted files))
    /\ full_error_messages st' =
       full_error_messages st
       ++ map full_diagnostic (filter fails_generic (attempted files))
    /\ node_class_mappings st' =
       fold_left Dict.update (map class_mappings_of (attempted files))
         (node_class_mappings st)
    /\ node_display_name_mappings st' =
       fold_left Dict.update (map display_names_of (attempted files))
         (node_display_name_mappings st).
Proof.
  revert st. induction files as [|c files IH]; intros st.
  - exists st. cbn. rewrite !app_nil_r. now repeat split.
  - destruct (load_one_step st c) as [st1 (S1 & S2 & S3 & S4 & S5)].
    destruct (IH st1) as [st' (H1 & H2 & H3 & H4 & H5)].
    exists st'. cbn [for_each]. rewrite S1. cbn [bind].
    change (c :: files) with ([c] ++ files).
    rewrite attempted_app, !filter_app, !map_app, !fold_left_app, !app_assoc.
    rewrite <- S2, <- S3, <- S4, <- S5. now repeat split.
Qed.

Lemma In_keys_fold_update {V} (tables : list (list (string * V)))
    (d : Dict.t V) (k : string) :
  In k (Dict.keys (fold_left Dict.update tables d)) <->
  In k (Dict.keys d) \/ exists t, In t tables /\ In k (map fst t).
Proof.
  revert d. induction tables as [|t tables IH]; intros d; simpl.
  - split; [auto | intros [H | [t [[] _]]]; exact H].
  - rewrite IH, In_keys_update. split.
    + intros [[H | H] | [t' [H1 H2]]]; eauto.
    + intros [H | [t' [[<- | H1] H2]]]; eauto.
Qed.


Example load_nodes_sample_directory :
  exists st,
    load_nodes_loop Examples.directory = Ok st
    /\ shorted_errors st =
       ["Failed to import module broken because ModuleNotFoundError: No module named 'mediapipe'"]
    /\ length (full_error_messages st) = 1
    /\ Dict.keys (node_class_mappings st) = ["CannyEdgePreprocessor"; "Expander"]
    /\ node_display_name_mappings st = [("CannyEdgePreprocessor", "Canny Edge")].
Proof. eexists. split; [vm_compute; reflexivity|]. repeat split. Qed.

(** A candidate whose [try] ends on line 35 does not load and leaves a
    diagnostic, and the classes line 33 merged from it stay registered. *)
Example load_nodes_partial_candidate :
  loads MoreExamples.partial = false
  /\ fails_generic MoreExamples.partial = true
  /\ exists st,
       load_nodes_loop (Examples.directory ++ [MoreExamples.partial]) = Ok st
       /\ Dict.keys (node_class_mappings st)
          = ["CannyEdgePreprocessor"; "Expander"; "Partial"]
       /\ shorted_errors st =
          ["Failed to import module broken because ModuleNotFoundError: No module named 'mediapipe'";
           "Failed to import module partial because TypeError: 'int' object is not iterable"].
Proof.
  split; [reflexivity|]. split; [reflexivity|].
  eexists. split; [vm_compute; reflexivity|]. split; reflexivity.
Qed.

(** The one-line summary ends with what follows the last line boundary of
    the traceback, here a line separator (U+2028). *)
Example load_nodes_separated_traceback :
  exists st,
    load_nodes_loop [MoreExamples.separated] = Ok st
    /\ shorted_errors st = ["Failed to import module separated because third"].
Proof. eexists. split; [vm_compute; reflexivity|]. reflexivity. Qed.

(** ** Argument building *)

Lemma get_In {V} (d : Dict.t V) (k : string) (v : V) :
  Dict.get k d = Some v -> In (k, v) d.
Proof.
  induction d as [|[k' v'] r IH]; simpl; [discriminate|].
  destruct (String.eqb k k') eqn:E.
  - apply String.eqb_eq in E. intros [= ->]. subst. now left.
  - intros H. right. now apply IH.
Qed.

Lemma In_get {V} (d : Dict.t V) (k : string) (v : V) :
  NoDup (Dict.keys d) -> In (k, v) d -> Dict.get k d = Some v.
Proof.
  induction d as [|[k' v'] r IH]; simpl; [tauto|].
  intros Hnd [H | H].
  - injection H as -> ->. now rewrite String.eqb_refl.
  - inversion Hnd as [|? ? Hout Hnd']; subst.
    destruct (String.eqb k k') eqn:E.
    + apply String.eqb_eq in E. subst. exfalso. apply Hout.
      change k' with (fst (k', v)). now apply in_map.
    + now apply IH.
Qed.

Lemma merge_input_types_NoDup (its : input_types) :
  NoDup (Dict.keys (merge_input_types its)).
Proof.
  unfold merge_input_types. do 2 apply keys_update_NoDup. constructor.
Qed.

Section Loop.
Variable fallback :
  string -> input_type -> Dict.t pyvalue -> result (Dict.t pyvalue).
Variables image resolution : pyvalue.

(** The type fallback assigns to no other name than the entry's. *)
Hypothesis fallback_frame :
  forall name it params params',
    fallback name it params = Ok params' ->
    forall k, k <> name -> Dict.get k params' = Dict.get k params.

Lemma bind_param_frame params name it params' :
  bind_param fallback image resolution params (name, it) = Ok params' ->
  forall k, k <> name -> Dict.get k params' = Dict.get k params.
Proof.
  unfold bind_param. intros H k Hk.
  destruct (String.eqb name "image").
  { injection H as <-. now apply get_set_other. }
  destruct (String.eqb name "resolution").
  { injection H as <-. now apply get_set_other. }
  destruct (it_rest it) as [|options [|more rest]];
    try (eapply fallback_frame; eassumption).
  destruct (Dict.mem "default" options);
    [|eapply fallback_frame; eassumption].
  destruct (py_dict_getitem options (VStr "default")); simpl in H;
    [|discriminate].
  injection H as <-. now apply get_set_other.
Qed.

Lemma loop_frame l acc params k :
  for_each l acc (bind_param fallback image resolution) = Ok params ->
  ~ In k (Dict.keys l) -> Dict.get k params = Dict.get k acc.
Proof.
  revert acc. induction l as [|[n it] l IH]; intros acc; cbn [for_each].
  - now intros [= ->].
  - destruct (bind_param fallback image resolution acc (n, it)) as [s1|e] eqn:E;
      cbn [bind]; [|discriminate].
    intros H Hk. simpl in Hk. rewrite (IH s1 H) by tauto.
    eapply bind_param_frame; [exact E|]. intros ->. tauto.
Qed.

(** What the loop leaves under a name is what the iteration on that name's
    entry left there, and that iteration found what the loop started with. *)
Lemma loop_at l acc params n it :
  NoDup (Dict.keys l) -> In (n, it) l ->
  for_each l acc (bind_param fallback image resolution) = Ok params ->
  exists a a',
    bind_param fallback image resolution a (n, it) = Ok a'
    /\ Dict.get n a = Dict.get n acc
    /\ Dict.get n params = Dict.get n a'.
Proof.
  revert acc. induction l as [|[n0 it0] l IH]; intros acc Hnd Hin;
    cbn [for_each]; [destruct Hin|].
  simpl in Hnd. inversion Hnd as [|? ? Hout Hnd']; subst.
  destruct (bind_param fallback image resolution acc (n0, it0)) as [s1|e] eqn:E;
    cbn [bind]; [|discriminate].
  intros H. destruct Hin as [Heq | Hin].
  - injection Heq as -> ->. exists acc, s1. repeat split; [assumption|].
    eapply loop_frame; eassumption.
  - destruct (IH s1 Hnd' Hin H) as [a [a' (H1 & H2 & H3)]].
    exists a, a'. repeat split; try assumption.
    rewrite H2. eapply bind_param_frame; [exact E|].
    intros ->. apply Hout. change n0 with (fst (n0, it)). now apply in_map.
Qed.

(** Lines 104-114 on one entry: the structural names take the caller's
    values, any other entry with a declared default takes that default. *)
Lemma bind_param_value a n it a' :
  bind_param fallback image resolution a (n, it) = Ok a' ->
  (n = "image" -> Dict.get n a' = Some image)
  /\ (n = "resolution" -> Dict.get n a' = Some resolution)
  /\ (forall d, n <> "image" -> n <> "resolution" ->
                declared_default it = Some d -> Dict.get n a' = Some d).
Proof.
  unfold bind_param, declared_default. intros H.
  destruct (String.eqb n "image") eqn:Ei.
  { apply String.eqb_eq in Ei. injection H as <-. subst n.
    repeat split; try (intros; congruence). intros _. apply get_set_same. }
  destruct (String.eqb n "resolution") eqn:Er.
  { apply String.eqb_eq in Er. injection H as <-. subst n.
    repeat split; try (intros; congruence). intros _. apply get_set_same. }
  apply String.eqb_neq in Ei, Er.
  repeat split; try (intros; congruence).
  intros d _ _ Hd.
  destruct (it_rest it) as [|options [|more rest]]; try discriminate.
  unfold Dict.mem, py_dict_getitem in H. simpl in H. rewrite Hd in H.
  simpl in H. injection H as <-. apply get_set_same.
Qed.

Lemma loop_binds its params :
  for_each (merge_input_types its) Dict.empty
    (bind_param fallback image resolution) = Ok params ->
  (In "image" (Dict.keys (merge_input_types its)) ->
   Dict.get "image" params = Some image)
  /\ (In "resolution" (Dict.keys (merge_input_types its)) ->
      Dict.get "resolution" params = Some resolution)
  /\ (forall name it d,
        name <> "image" -> name <> "resolution" ->
        Dict.get name (merge_input_types its) = Some it ->
        declared_default it = Some d ->
        Dict.get name params = Some d).
Proof.
  intros H. pose proof (merge_input_types_NoDup its) as Hnd.
  repeat split.
  - intros Hin. apply in_map_iff in Hin. destruct Hin as [[n it] [Hn Hin]].
    simpl in Hn. subst n.
    destruct (loop_at _ _ _ _ _ Hnd Hin H) as [a [a' (H1 & _ & H3)]].
    rewrite H3. exact (proj1 (bind_param_value _ _ _ _ H1) eq_refl).
  - intros Hin. apply in_map_iff in Hin. destruct Hin as [[n it] [Hn Hin]].
    simpl in Hn. subst n.
    destruct (loop_at _ _ _ _ _ Hnd Hin H) as [a [a' (H1 & _ & H3)]].
    rewrite H3. exact (proj1 (proj2 (bind_param_value _ _ _ _ H1)) eq_refl).
  - intros name it d Hi Hr Hget Hd. apply get_In in Hget.
    destruct (loop_at _ _ _ _ _ Hnd Hget H) as [a [a' (H1 & _ & H3)]].
    rewrite H3. exact (proj2 (proj2 (bind_param_value _ _ _ _ H1)) d Hi Hr Hd).
Qed.
End Loop.

Lemma AIO_fallback_frame name it params params' :
  AIO_fallback name it params = Ok params' ->
  forall k, k <> name -> Dict.get k params' = Dict.get k params.
Proof.
  unfold AIO_fallback. intros H k Hk.
  assert (Tag : forall tag,
            (found <- py_in_dict tag default_values ;;
             if (found : bool) then
               v <- py_dict_getitem default_values tag ;;
               Ok (Dict.set name v params)
             else Ok params) = Ok params' ->
            Dict.get k params' = Dict.get k params).
  { intros tag Ht. destruct (py_in_dict tag default_values) as [[|]|];
      cbn [bind] in Ht; try discriminate.
    - destruct (py_dict_getitem default_values tag); cbn [bind] in Ht;
        [|discriminate].
      injection Ht as <-. now apply get_set_other.
    - now injection Ht as <-. }
  assert (Choices : forall whole options params,
            for_each options params (fun params input_type_value =>
              found <- py_in_dict input_type_value default_values ;;
              if (found : bool) then
                v <- py_dict_getitem default_values whole ;;
                Ok (Dict.set name v params)
              else Ok params) = Ok params' ->
            Dict.get k params' = Dict.get k params).
  { intros whole options. induction options as [|x options IH];
      intros acc Hl; cbn [for_each] in Hl.
    - now injection Hl as <-.
    - destruct (py_in_dict x default_values) as [[|]|]; cbn [bind] in Hl;
        try discriminate.
      + destruct (py_dict_getitem default_values whole); cbn [bind] in Hl;
          [|discriminate].
        rewrite (IH _ Hl). now apply get_set_other.
      + exact (IH _ Hl). }
  destruct (it_type it); try (now apply (Tag _ H)).
  now apply (Choices _ _ _ H).
Qed.

Lemma Selector_fallback_frame name it params params' :
  Selector_fallback name it params = Ok params' ->
  forall k, k <> name -> Dict.get k params' = Dict.get k params.
Proof.
  unfold Selector_fallback. intros H k Hk.
  destruct (py_in_dict (it_type it) default_values) as [[|]|];
    cbn [bind] in H; try discriminate.
  - destruct (py_dict_getitem default_values (it_type it)); cbn [bind] in H;
      [|discriminate].
    injection H as <-. now apply get_set_other.
  - now injection H as <-.
Qed.

(** Whenever either adapter builds an argument set for a unit's schema,
    the set binds "image" and "resolution", where the schema has them, to
    the caller's image and resolution whatever the entries declare, and
    binds every other entry that declares a default to that default. *)
Lemma structural_roles_from_caller
    (its : input_types) (image resolution : pyvalue) (params : Dict.t pyvalue) :
  AIO_params image resolution (merge_input_types its) = Ok params
  \/ Selector_params image resolution (merge_input_types its) = Ok params ->
  (In "image" (Dict.keys (merge_input_types its)) ->
   Dict.get "image" params = Some image)
  /\ (In "resolution" (Dict.keys (merge_input_types its)) ->
      Dict.get "resolution" params = Some resolution)
  /\ (forall name it d,
        name <> "image" -> name <> "resolution" ->
        Dict.get name (merge_input_types its) = Some it ->
        declared_default it = Some d ->
        Dict.get name params = Some d).
Proof.
  intros [H | H].
  - exact (loop_binds AIO_fallback image resolution AIO_fallback_frame its params H).
  - exact (loop_binds Selector_fallback image resolution Selector_fallback_frame
             its params H).
Qed.

Lemma structural_roles_from_caller_witness :
  AIO_params Examples.the_image (VInt 512)
    (merge_input_types (INPUT_TYPES Examples.Canny))
  = Ok [("image", Examples.the_image); ("low_threshold", VInt 100);
        ("high_threshold", VInt 200); ("resolution", VInt 512)]
  /\ Dict.get "image"
       [("image", Examples.the_image); ("low_threshold", VInt 100);
        ("high_threshold", VInt 200); ("resolution", VInt 512)]
     = Some Examples.the_image
  /\ Dict.get "resolution"
       [("image", Examples.the_image); ("low_threshold", VInt 100);
        ("high_threshold", VInt 200); ("resolution", VInt 512)]
     = Some (VInt 512).
Proof.
  assert (E : AIO_params Examples.the_image (VInt 512)
                (merge_input_types (INPUT_TYPES Examples.Canny))
              = Ok [("image", Examples.the_image); ("low_threshold", VInt 100);
                    ("high_threshold", VInt 200); ("resolution", VInt 512)])
    by reflexivity.
  split; [exact E|].
  destruct (structural_roles_from_caller (INPUT_TYPES Examples.Canny)
              Examples.the_image (VInt 512) _ (or_introl E)) as (Hi & Hr & _).
  split; [apply Hi | apply Hr]; simpl; tauto.
Defined.

(** The caller's resolution wins over a different declared default. *)
Example resolution_overrides_declared_default :
  AIO_params Examples.the_image (VInt 768)
    (merge_input_types (INPUT_TYPES Examples.Canny))
  = Ok [("image", Examples.the_image); ("low_threshold", VInt 100);
        ("high_threshold", VInt 200); ("resolution", VInt 768)].
Proof. reflexivity. Qed.

(** ** The type fallback on a list of choices *)

(** X9. Line 120 subscripts [default_values] with the list of choices itself:
    as soon as a choice is a key of [default_values] (or is unhashable) the
    fallback of the unified dispatch raises. *)
Lemma AIO_fallback_choices_raise name options rest params :
  existsb is_default_key options = true ->
  AIO_fallback name {| it_type := VList options; it_rest := rest |} params
  = Raise unhashable_type.
Proof.
  intros H. unfold AIO_fallback. cbn [it_type].
  assert (Loop : forall whole l acc,
            py_dict_getitem default_values whole = Raise unhashable_type ->
            existsb is_default_key l = true ->
            for_each l acc (fun params input_type_value =>
              found <- py_in_dict input_type_value default_values ;;
              if (found : bool) then
                v <- py_dict_getitem default_values whole ;;
                Ok (Dict.set name v params)
              else Ok params) = Raise unhashable_type).
  { intros whole l. induction l as [|x l IH]; intros acc Hw Hl;
      [discriminate|].
    cbn [for_each]. cbn [existsb] in Hl. unfold py_in_dict at 1.
    destruct (hashable x) eqn:Hx; [|reflexivity].
    destruct x; cbn [is_default_key orb] in Hl; cbn [bind];
      try (now apply IH); try discriminate.
    destruct (Dict.mem s default_values) eqn:Hs; cbn [orb] in Hl.
    - rewrite Hw. reflexivity.
    - now apply IH. }
  apply Loop; [reflexivity | exact H].
Qed.

(** Line 259 tests the list of choices itself for membership in
    [default_values]: the fallback of the selector raises on every list. *)
Lemma Selector_fallback_choices_raise name options rest params :
  Selector_fallback name {| it_type := VList options; it_rest := rest |} params
  = Raise unhashable_type.
Proof. reflexivity. Qed.

(** C2 (the code at the failing input). The unit [Examples.Typed] has a
    required combo ["dtype"] with no declared default whose choices are
    "INT" and "FLOAT".  Both adapters raise a [TypeError] on it, where the
    claim has "dtype" bound to 0. *)
Theorem choice_list_fallback_raises :
  AIO_params Examples.the_image (VInt 512)
    (merge_input_types (INPUT_TYPES Examples.Typed)) = Raise unhashable_type
  /\ Selector_params Examples.the_image (VInt 512)
       (merge_input_types (INPUT_TYPES Examples.Typed)) = Raise unhashable_type
  /\ snd (AIO_execute Examples.registry (VStr "Typed") Examples.the_image None)
     = Raise unhashable_type.
Proof. repeat split. Qed.

(** ** Entries with no value to bind *)

Lemma AIO_fallback_type_name name it params s :
  it_type it = VStr s ->
  AIO_fallback name it params =
  Ok (match Dict.get s default_values with
      | Some v => Dict.set name v params
      | None => params
      end).
Proof.
  unfold AIO_fallback, py_in_dict, py_dict_getitem, Dict.mem. intros ->.
  cbn [hashable bind]. destruct (Dict.get s default_values); reflexivity.
Qed.

Lemma Selector_fallback_type_name name it params s :
  it_type it = VStr s ->
  Selector_fallback name it params =
  Ok (match Dict.get s default_values with
      | Some v => Dict.set name v params
      | None => params
      end).
Proof.
  unfold Selector_fallback, py_in_dict, py_dict_getitem, Dict.mem. intros ->.
  cbn [hashable bind]. destruct (Dict.get s default_values); reflexivity.
Qed.

Section TypeNames.
Variable fallback :
  string -> input_type -> Dict.t pyvalue -> result (Dict.t pyvalue).
Variables image resolution : pyvalue.

Hypothesis fallback_type_name :
  forall name it params s,
    it_type it = VStr s ->
    fallback name it params =
    Ok (match Dict.get s default_values with
        | Some v => Dict.set name v params
        | None => params
        end).

Lemma bind_param_bound acc n it :
  (reaches_fallback n it = true -> is_type_name (it_type it) = true) ->
  bind_param fallback image resolution acc (n, it) =
  Ok (match bound_value image resolution n it with
      | Some v => Dict.set n v acc
      | None => acc
      end).
Proof.
  unfold bind_param, bound_value, reaches_fallback, declared_default.
  destruct (String.eqb n "image"); [reflexivity|].
  destruct (String.eqb n "resolution"); [reflexivity|].
  cbn [negb andb].
  assert (Fb : is_type_name (it_type it) = true ->
               fallback n it acc =
               Ok match it_type it with
                  | VStr s =>
                      match Dict.get s default_values with
                      | Some v => Dict.set n v acc
                      | None => acc
                      end
                  | _ => acc
                  end).
  { destruct (it_type it) eqn:Et; try discriminate. intros _.
    rewrite (fallback_type_name n it acc s Et).
    destruct (Dict.get s default_values); reflexivity. }
  assert (Same : forall t : pyvalue,
            match (match t with
                   | VStr s => Dict.get s default_values
                   | _ => None
                   end) with
            | Some v => Dict.set n v acc
            | None => acc
            end =
            match t with
            | VStr s =>
                match Dict.get s default_values with
                | Some v => Dict.set n v acc
                | None => acc
                end
            | _ => acc
            end) by (intros []; reflexivity).
  destruct (it_rest it) as [|options [|more rest]]; intros Hn;
    try (rewrite Same; now apply Fb, Hn).
  unfold Dict.mem, py_dict_getitem. cbn [hashable].
  destruct (Dict.get "default" options); [reflexivity|].
  rewrite Same. now apply Fb, Hn.
Qed.

Lemma loop_bound l acc :
  (forall n it, In (n, it) l ->
                reaches_fallback n it = true -> is_type_name (it_type it) = true) ->
  for_each l acc (bind_param fallback image resolution) =
  Ok (bound_params image resolution l acc).
Proof.
  revert acc. induction l as [|[n it] l IH]; intros acc H; [reflexivity|].
  cbn [for_each]. rewrite bind_param_bound by (apply (H n it); now left).
  cbn [bind].
  rewrite IH by (intros n' it' Hin; apply (H n' it'); now right).
  reflexivity.
Qed.
End TypeNames.

Lemma get_bound_params image resolution l acc name :
  NoDup (Dict.keys l) ->
  Dict.get name (bound_params image resolution l acc) =
  match Dict.get name l with
  | Some it =>
      match bound_value image resolution name it with
      | Some v => Some v
      | None => Dict.get name acc
      end
  | None => Dict.get name acc
  end.
Proof.
  unfold bound_params. revert acc.
  induction l as [|[n it] l IH]; intros acc Hnd; [reflexivity|].
  simpl in Hnd. inversion Hnd as [|? ? Hout Hnd']; subst.
  cbn [fold_left fst snd Dict.get]. rewrite IH by assumption.
  destruct (String.eqb name n) eqn:E.
  - apply String.eqb_eq in E. subst n.
    apply get_None_keys in Hout. rewrite Hout.
    destruct (bound_value image resolution name it); [apply get_set_same|reflexivity].
  - apply String.eqb_neq in E.
    assert (Hacc : Dict.get name
                     match bound_value image resolution n it with
                     | Some v => Dict.set n v acc
                     | None => acc
                     end = Dict.get name acc).
    { destruct (bound_value image resolution n it);
        [now apply get_set_other | reflexivity]. }
    rewrite Hacc. reflexivity.
Qed.

(** C1 (the code at the failing inputs, and where the claim holds).  The
    schemas of [Examples.Typed] and [MoreExamples.Scheduled] have an "image"
    and a "resolution" parameter, and a combo with no declared default
    beside them.  On the first, whose choices include "INT", both adapters
    raise a [TypeError] and build no argument set; on the second, whose
    choices are no keys of [default_values], the unified dispatch binds
    the two roles and the selector still raises.  On every schema whose
    entries, where they reach the type fallback, have a type name, both
    adapters do build the same argument set, and it binds "image" and
    "resolution" to the caller's values whatever the entries declare and
    every other entry that declares a default to that default. *)
Theorem structural_roles_lost_on_choice_lists :
  let typed := merge_input_types (INPUT_TYPES Examples.Typed) in
  let scheduled := merge_input_types (INPUT_TYPES MoreExamples.Scheduled) in
  (In "image" (Dict.keys typed) /\ In "resolution" (Dict.keys typed)
   /\ AIO_params Examples.the_image (VInt 512) typed = Raise unhashable_type
   /\ Selector_params Examples.the_image (VInt 512) typed
      = Raise unhashable_type)
  /\ (In "image" (Dict.keys scheduled) /\ In "resolution" (Dict.keys scheduled)
      /\ AIO_params Examples.the_image (VInt 512) scheduled
         = Ok [("image", Examples.the_image); ("resolution", VInt 512)]
      /\ Selector_params Examples.the_image (VInt 512) scheduled
         = Raise unhashable_type)
  /\ forall (its : input_types) (image resolution : pyvalue),
       (forall name it,
          Dict.get name (merge_input_types its) = Some it ->
          reaches_fallback name it = true -> is_type_name (it_type it) = true) ->
       exists params,
         AIO_params image resolution (merge_input_types its) = Ok params
         /\ Selector_params image resolution (merge_input_types its) = Ok params
         /\ (In "image" (Dict.keys (merge_input_types its)) ->
             Dict.get "image" params = Some image)
         /\ (In "resolution" (Dict.keys (merge_input_types its)) ->
             Dict.get "resolution" params = Some resolution)
         /\ (forall name it d,
               name <> "image" -> name <> "resolution" ->
               Dict.get name (merge_input_types its) = Some it ->
               declared_default it = Some d ->
               Dict.get name params = Some d).
Proof.
  cbv zeta. split; [|split].
  - split; [simpl; tauto|]. split; [simpl; tauto|]. split; reflexivity.
  - split; [simpl; tauto|]. split; [simpl; tauto|]. split; reflexivity.
  - intros its image resolution H.
    assert (H' : forall n it, In (n, it) (merge_input_types its) ->
                 reaches_fallback n it = true -> is_type_name (it_type it) = true).
    { intros n it Hin. apply H. apply In_get; [|exact Hin].
      apply merge_input_types_NoDup. }
    exists (bound_params image resolution (merge_input_types its) Dict.empty).
    assert (Ha : AIO_params image resolution (merge_input_types its)
                 = Ok (bound_params image resolution (merge_input_types its)
                         Dict.empty)).
    { apply loop_bound; [exact AIO_fallback_type_name | exact H']. }
    split; [exact Ha|]. split.
    + apply loop_bound; [exact Selector_fallback_type_name | exact H'].
    + exact (loop_binds AIO_fallback image resolution AIO_fallback_frame
               its _ Ha).
Qed.

(** Both adapters on the Canny unit, with a caller's resolution that differs
    from the declared default. *)
Example both_adapters_bind_roles :
  AIO_params Examples.the_image (VInt 768)
    (merge_input_types (INPUT_TYPES Examples.Canny))
  = Ok [("image", Examples.the_image); ("low_threshold", VInt 100);
        ("high_threshold", VInt 200); ("resolution", VInt 768)]
  /\ Selector_params Examples.the_image (VInt 768)
       (merge_input_types (INPUT_TYPES Examples.Canny))
     = Ok [("image", Examples.the_image); ("low_threshold", VInt 100);
           ("high_threshold", VInt 200); ("resolution", VInt 768)].
Proof. split; reflexivity. Qed.

(** C4 (as the code has it). Argument building has no missing-parameter
    error.  For every schema whose entries, where they reach the type
    fallback, have a type name, both adapters build the same argument set
    without failing; a name is bound in it exactly as lines 104-123 give it
    a value, and an entry with no declared default whose type is neither
    "INT" nor "FLOAT" is left unbound. *)
Theorem build_arguments_leaves_unbound
    (its : input_types) (image resolution : pyvalue) :
  (forall name it,
     Dict.get name (merge_input_types its) = Some it ->
     reaches_fallback name it = true -> is_type_name (it_type it) = true) ->
  exists params,
    AIO_params image resolution (merge_input_types its) = Ok params
    /\ Selector_params image resolution (merge_input_types its) = Ok params
    /\ forall name,
         Dict.get name params =
         match Dict.get name (merge_input_types its) with
         | Some it => bound_value image resolution name it
         | None => None
         end.
Proof.
  intros H. pose proof (merge_input_types_NoDup its) as Hnd.
  assert (H' : forall n it, In (n, it) (merge_input_types its) ->
               reaches_fallback n it = true -> is_type_name (it_type it) = true).
  { intros n it Hin. apply H. now apply In_get. }
  exists (bound_params image resolution (merge_input_types its) Dict.empty).
  split; [|split].
  - apply loop_bound; [exact AIO_fallback_type_name | exact H'].
  - apply loop_bound; [exact Selector_fallback_type_name | exact H'].
  - intros name. rewrite get_bound_params by assumption.
    destruct (Dict.get name (merge_input_types its)); [|reflexivity].
    now destruct (bound_value image resolution name i).
Qed.

Lemma build_arguments_leaves_unbound_witness :
  exists params,
    AIO_params Examples.the_image (VInt 512)
      (merge_input_types (INPUT_TYPES Examples.Masked)) = Ok params
    /\ Selector_params Examples.the_image (VInt 512)
         (merge_input_types (INPUT_TYPES Examples.Masked)) = Ok params
    /\ forall name,
         Dict.get name params =
         match Dict.get name (merge_input_types (INPUT_TYPES Examples.Masked)) with
         | Some it => bound_value Examples.the_image (VInt 512) name it
         | None => None
         end.
Proof.
  apply (build_arguments_leaves_unbound (INPUT_TYPES Examples.Masked)).
  intros name it Hget _. apply get_In in Hget. simpl in Hget.
  destruct Hget as [[= <- <-] | [[= <- <-] | []]]; reflexivity.
Defined.

(** C4, the claim as stated fails: the required "mask" of [Examples.Masked]
    has no supplied value, no declared default and no type fallback, and
    argument building succeeds, leaving it out. *)
Lemma missing_parameter_not_signalled :
  ~ ((exists name it,
        Dict.get name (merge_input_types (INPUT_TYPES Examples.Masked)) = Some it
        /\ bound_value Examples.the_image (VInt 512) name it = None) ->
     is_ok (AIO_params Examples.the_image (VInt 512)
              (merge_input_types (INPUT_TYPES Examples.Masked))) = false).
Proof.
  intros H.
  assert (P : exists name it,
            Dict.get name (merge_input_types (INPUT_TYPES Examples.Masked)) = Some it
            /\ bound_value Examples.the_image (VInt 512) name it = None).
  { exists "mask", {| it_type := VStr "MASK"; it_rest := [] |}. split; reflexivity. }
  apply H in P. vm_compute in P. discriminate.
Qed.

(** The unbound parameter shows only when the unit is called. *)
Example unbound_parameter_fails_in_the_unit :
  AIO_params Examples.the_image (VInt 512)
    (merge_input_types (INPUT_TYPES Examples.Masked))
  = Ok [("image", Examples.the_image)]
  /\ snd (AIO_execute Examples.registry (VStr "Masked") Examples.the_image None)
     = Raise (TypeError "missing 1 required positional argument").
Proof. split; reflexivity. Qed.

(** ** What the adapters return *)





(** The selector gives the same tuple for both shapes. *)
Example selector_normalizes_both_shapes :
  snd (get_preprocessor Examples.load_controlnet Examples.registry
         (VStr "control_v11p_sd15_canny.pth") Examples.the_image None
         (Some (Examples.the_prompt "CannyEdgePreprocessor")) (Some (VStr "7")))
  = snd (get_preprocessor Examples.load_controlnet Examples.registry
           (VStr "control_v11p_sd15_canny.pth") Examples.the_image None
           (Some (Examples.the_prompt "Expander")) (Some (VStr "7"))).
Proof. reflexivity. Qed.

(** ** The only failure of argument building *)

Lemma py_in_dict_raise {V} (key : pyvalue) (d : Dict.t V) e :
  py_in_dict key d = Raise e -> e = unhashable_type.
Proof.
  unfold py_in_dict. destruct (hashable key); [|now intros [= <-]].
  destruct key; discriminate.
Qed.

Lemma py_in_dict_found {V} (key : pyvalue) (d : Dict.t V) :
  py_in_dict key d = Ok true -> exists v, py_dict_getitem d key = Ok v.
Proof.
  unfold py_in_dict, py_dict_getitem, Dict.mem.
  destruct (hashable key); [|discriminate].
  destruct key; try discriminate.
  destruct (Dict.get s d) as [v|]; [|discriminate]. now exists v.
Qed.

Lemma AIO_fallback_raise name it params e :
  AIO_fallback name it params = Raise e -> e = unhashable_type.
Proof.
  unfold AIO_fallback.
  assert (Tag : forall tag,
            (found <- py_in_dict tag default_values ;;
             if (found : bool) then
               v <- py_dict_getitem default_values tag ;;
               Ok (Dict.set name v params)
             else Ok params) = Raise e -> e = unhashable_type).
  { intros tag. destruct (py_in_dict tag default_values) as [[|]|e'] eqn:E;
      cbn [bind]; try discriminate.
    - destruct (py_in_dict_found _ _ E) as [v ->]. discriminate.
    - intros [= <-]. exact (py_in_dict_raise _ _ _ E). }
  assert (Choices : forall options whole acc,
            py_dict_getitem default_values whole = Raise unhashable_type ->
            for_each options acc (fun params input_type_value =>
              found <- py_in_dict input_type_value default_values ;;
              if (found : bool) then
                v <- py_dict_getitem default_values whole ;;
                Ok (Dict.set name v params)
              else Ok params) = Raise e -> e = unhashable_type).
  { induction options as [|x options IH]; intros whole acc Hw;
      cbn [for_each]; [discriminate|].
    destruct (py_in_dict x default_values) as [[|]|e'] eqn:E; cbn [bind].
    - rewrite Hw. cbn [bind]. now intros [= <-].
    - now apply IH.
    - intros [= <-]. exact (py_in_dict_raise _ _ _ E). }
  destruct (it_type it); try (now apply Tag).
  now apply Choices.
Qed.

Lemma Selector_fallback_raise name it params e :
  Selector_fallback name it params = Raise e -> e = unhashable_type.
Proof.
  unfold Selector_fallback.
  destruct (py_in_dict (it_type it) default_values) as [[|]|e'] eqn:E;
    cbn [bind]; try discriminate.
  - destruct (py_in_dict_found _ _ E) as [v ->]. discriminate.
  - intros [= <-]. exact (py_in_dict_raise _ _ _ E).
Qed.

Section OnlyFailure.
Variable fallback :
  string -> input_type -> Dict.t pyvalue -> result (Dict.t pyvalue).
Variables image resolution : pyvalue.

Hypothesis fallback_raise :
  forall name it params e,
    fallback name it params = Raise e -> e = unhashable_type.

Lemma bind_param_raise acc n it e :
  bind_param fallback image resolution acc (n, it) = Raise e ->
  e = unhashable_type.
Proof.
  unfold bind_param.
  destruct (String.eqb n "image"); [discriminate|].
  destruct (String.eqb n "resolution"); [discriminate|].
  destruct (it_rest it) as [|options [|more rest]];
    try (now apply fallback_raise).
  unfold Dict.mem, py_dict_getitem. cbn [hashable].
  destruct (Dict.get "default" options); [discriminate|].
  now apply fallback_raise.
Qed.

Lemma loop_raise l acc e :
  for_each l acc (bind_param fallback image resolution) = Raise e ->
  e = unhashable_type.
Proof.
  revert acc. induction l as [|[n it] l IH]; intros acc; cbn [for_each];
    [discriminate|].
  destruct (bind_param fallback image resolution acc (n, it)) as [s1|e'] eqn:E;
    cbn [bind].
  - apply IH.
  - intros [= <-]. exact (bind_param_raise _ _ _ _ E).
Qed.
End OnlyFailure.

(** X8. On every schema of the model, that is with descriptors that hold a
    type tag and, after it, option dicts, the loop of either adapter ends:
    with an argument set, or with the [TypeError] of the type fallback on a
    value that cannot be hashed, and with nothing else. *)
Theorem build_arguments_ends (schema : Dict.t input_type)
    (image resolution : pyvalue) :
  ((exists params, AIO_params image resolution schema = Ok params)
   \/ AIO_params image resolution schema = Raise unhashable_type)
  /\ ((exists params, Selector_params image resolution schema = Ok params)
      \/ Selector_params image resolution schema = Raise unhashable_type).
Proof.
  split.
  - destruct (AIO_params image resolution schema) as [params | e] eqn:E;
      [left; now exists params | right].
    now rewrite (loop_raise AIO_fallback image resolution AIO_fallback_raise
                   _ _ _ E).
  - destruct (Selector_params image resolution schema) as [params | e] eqn:E;
      [left; now exists params | right].
    now rewrite (loop_raise Selector_fallback image resolution
                   Selector_fallback_raise _ _ _ E).
Qed.

(** ** The composer always ends with one output *)

Lemma list_remove_keeps (x y : string) (l : list string) :
  x <> y -> In y l -> In y (list_remove x l).
Proof.
  intros Hne. induction l as [|z l IH]; simpl; [tauto|].
  destruct (String.eqb x z) eqn:E.
  - apply String.eqb_eq in E. subst z. intros [H | H]; [congruence | assumption].
  - intros [H | H]; [now left | right; now apply IH].
Qed.

Lemma remove_names_keeps (names auxs : list string) (y : string) :
  ~ In y names -> In y auxs -> In y (remove_names names auxs).
Proof.
  unfold remove_names. revert auxs.
  induction names as [|n names IH]; intros auxs Hy Hin; simpl; [assumption|].
  apply IH; [simpl in Hy; tauto|].
  destruct (str_in n auxs); [|assumption].
  apply list_remove_keeps; [|assumption]. intros ->. apply Hy. now left.
Qed.

Lemma preprocessor_options_has_none (reg : Dict.t aux_class) :
  In "none" (preprocessor_options reg).
Proof.
  unfold preprocessor_options. apply remove_names_keeps; [|now left].
  apply str_in_false. exact none_is_supported.
Qed.

Lemma fan_out_length_from image resolution opts outs g :
  length (fst (fold_left (fan_out_one image resolution) opts (outs, g)))
  = length outs + length opts.
Proof.
  revert outs g. induction opts as [|o opts IH]; intros outs g; simpl; [lia|].
  rewrite IH, length_app. simpl. lia.
Qed.

Lemma fan_out_length opts image resolution :
  length (fst (fan_out opts image resolution)) = length opts.
Proof. unfold fan_out. now rewrite fan_out_length_from. Qed.

Lemma merge_pairs_length l :
  forall g,
    length (fst (merge_pairs l g)) = Nat.div2 (S (length l))
    /\ forall a, length (fst (merge_pairs (a :: l) g)) = Nat.div2 (S (S (length l))).
Proof.
  induction l as [|b l IH]; intros g.
  - split; [reflexivity | intros a; reflexivity].
  - split; [apply IH|].
    intros a. cbn [merge_pairs].
    destruct (graph_node_new g "ImageBatch" [("image1", a); ("image2", b)])
      as [id g1].
    destruct (merge_pairs l g1) as [outs g2] eqn:E.
    cbn [fst length]. pose proof (proj1 (IH g1)) as H. rewrite E in H.
    cbn [fst] in H. rewrite H. reflexivity.
Qed.

Lemma div2_succ_lt n : 2 <= n -> Nat.div2 (S n) < n.
Proof.
  intros H. pose proof (Nat.div2_odd (S n)) as E.
  destruct (Nat.odd (S n)); simpl Nat.b2n in E; lia.
Qed.

Lemma div2_succ_pos n : 1 <= n -> 1 <= Nat.div2 (S n).
Proof.
  intros H. pose proof (Nat.div2_odd (S n)) as E.
  destruct (Nat.odd (S n)); simpl Nat.b2n in E; lia.
Qed.

(** With [fuel] at least the number of outputs, the loop leaves through its
    condition: one output is left when there was any. *)
Lemma merge_rounds_ends fuel :
  forall outs g,
    1 <= length outs <= fuel ->
    length (fst (snd (merge_rounds fuel outs g))) = 1.
Proof.
  induction fuel as [|fuel IH]; intros outs g H; [lia|].
  cbn [merge_rounds].
  destruct (1 <? length outs)%nat eqn:E.
  - apply Nat.ltb_lt in E.
    pose proof (proj1 (merge_pairs_length outs g)) as Hl.
    destruct (merge_pairs outs g) as [outs' g'] eqn:Em. cbn [fst] in Hl.
    pose proof (div2_succ_lt (length outs) E).
    pose proof (div2_succ_pos (length outs) (proj1 H)).
    specialize (IH outs' g').
    destruct (merge_rounds fuel outs' g') as [seen final].
    cbn [snd fst] in *. apply IH. lia.
  - apply Nat.ltb_ge in E. cbn [snd fst]. lia.
Qed.

(** X18. With the graph builder at hand the composer returns, for every registry,
    a graph and exactly one result output. *)
Lemma composer_returns_one_output
    (reg : Dict.t aux_class) (image : pyvalue) (resolution : option pyvalue) :
  exists first graph,
    ExecuteAll_execute true (preprocessor_options reg) image resolution
    = Ok {| out_result := [first]; out_expand := graph |}.
Proof.
  unfold ExecuteAll_execute. cbn [negb].
  pose proof (fan_out_length (preprocessor_options reg) image
                (or_default resolution (VInt 512))) as Hlen.
  pose proof (preprocessor_options_has_none reg) as Hnone.
  destruct (preprocessor_options reg) as [|o opts] eqn:Eo; [destruct Hnone|].
  destruct (fan_out (o :: opts) image (or_default resolution (VInt 512)))
    as [outs g]. cbn [fst] in Hlen.
  pose proof (merge_rounds_ends (length outs) outs g) as Hend.
  unfold reduce_pairwise.
  destruct (snd (merge_rounds (length outs) outs g)) as [final g'].
  cbn [fst] in Hend. simpl length in Hlen.
  destruct final as [|first rest]; [simpl in Hend; lia|].
  now exists first, (finalize g').
Qed.

(** For any other name the dispatch looks the unit up, asks for its schema
    and calls it, in that order. *)
Example AIO_execute_dispatches :
  AIO_execute Examples.registry (VStr "CannyEdgePreprocessor")
    Examples.the_image None
  = ([EvLookup (VStr "CannyEdgePreprocessor");
      EvInputTypes (VStr "CannyEdgePreprocessor");
      EvCall (VStr "CannyEdgePreprocessor")
        [("image", Examples.the_image); ("low_threshold", VInt 100);
         ("high_threshold", VInt 200); ("resolution", VInt 512)]],
     Ok (VTuple [Examples.hint_image])).
Proof. reflexivity. Qed.

(** * Further properties of the code *)

(** ** Discovery: hidden files, distinct names, shadowing, diagnostics *)

(** X1. Hidden directory entries (line 28) have no effect at all: discovery
    gives the same result as on the directory without them. *)
Theorem load_nodes_ignores_hidden_files (node_wrappers : list candidate) :
  load_nodes_loop node_wrappers = load_nodes_loop (attempted node_wrappers)
  /\ load_nodes node_wrappers = load_nodes (attempted node_wrappers).
Proof.
  assert (H : forall st,
            for_each node_wrappers st load_one
            = for_each (attempted node_wrappers) st load_one).
  { induction node_wrappers as [|c files IH]; intros st; [reflexivity|].
    rewrite attempted_cons. cbn [for_each].
    destruct (startswith_dot (stem c)) eqn:Hdot.
    - unfold load_one at 1. rewrite Hdot. cbn [bind]. apply IH.
    - cbn [for_each]. destruct (load_one st c); cbn [bind];
        [apply IH | reflexivity]. }
  unfold load_nodes, load_nodes_loop. now rewrite H.
Qed.

Lemma fold_update_NoDup {V} (tables : list (list (string * V))) (d : Dict.t V) :
  NoDup (Dict.keys d) -> NoDup (Dict.keys (fold_left Dict.update tables d)).
Proof.
  revert d. induction tables as [|t tables IH]; intros d H; simpl;
    [assumption|].
  apply IH. now apply keys_update_NoDup.
Qed.

(** X2. The names of the registry and of the display-name table that discovery
    returns are pairwise distinct, whatever the modules export. *)
Theorem load_nodes_names_distinct (node_wrappers : list candidate) :
  exists registry display_names,
    load_nodes node_wrappers = Ok (registry, display_names)
    /\ NoDup (Dict.keys registry)
    /\ NoDup (Dict.keys display_names).
Proof.
  unfold load_nodes, load_nodes_loop.
  destruct (load_loop_from node_wrappers load_start)
    as [st (H1 & _ & _ & H4 & H5)].
  rewrite H1. cbn [bind].
  exists (node_class_mappings st), (node_display_name_mappings st).
  split; [reflexivity|]. rewrite H4, H5.
  split; apply fold_update_NoDup; constructor.
Qed.

(** X3. A name is in the registry exactly when line 33 merged it for a
    candidate that is not hidden, and in the display-name table exactly
    when line 35 merged it: a hidden file, a candidate whose import raises
    and a module without a class table contribute no name; a module whose
    class table cannot be merged contributes no display name; a candidate
    that fails after a merge contributes what was merged. *)
Theorem load_nodes_registry_names (node_wrappers : list candidate) :
  exists registry display_names,
    load_nodes node_wrappers = Ok (registry, display_names)
    /\ (forall name,
          In name (Dict.keys registry) <->
          exists c, In c (attempted node_wrappers)
                    /\ In name (map fst (class_mappings_of c)))
    /\ (forall name,
          In name (Dict.keys display_names) <->
          exists c, In c (attempted node_wrappers)
                    /\ In name (map fst (display_names_of c))).
Proof.
  unfold load_nodes, load_nodes_loop.
  destruct (load_loop_from node_wrappers load_start)
    as [st (H1 & _ & _ & H4 & H5)].
  rewrite H1. cbn [bind].
  exists (node_class_mappings st), (node_display_name_mappings st).
  split; [reflexivity|]. rewrite H4, H5.
  split; intros name; rewrite In_keys_fold_update; split.
  - intros [[] | [t [Ht Hn]]]. apply in_map_iff in Ht.
    destruct Ht as [c [<- Hc]]. now exists c.
  - intros [c (Hc & Hn)]. right. exists (class_mappings_of c).
    split; [|assumption]. now apply in_map.
  - intros [[] | [t [Ht Hn]]]. apply in_map_iff in Ht.
    destruct Ht as [c [<- Hc]]. now exists c.
  - intros [c (Hc & Hn)]. right. exists (display_names_of c).
    split; [|assumption]. now apply in_map.
Qed.

Lemma get_app {V} (d1 d2 : Dict.t V) (k : string) :
  Dict.get k (d1 ++ d2) =
  match Dict.get k d1 with
  | Some v => Some v
  | None => Dict.get k d2
  end.
Proof.
  induction d1 as [|[k' v'] d1 IH]; simpl; [reflexivity|].
  now destruct (String.eqb k k').
Qed.

(** After [d.update(other)] a key holds its last value in [other], or the
    value it had. *)
Lemma get_update {V} (other : list (string * V)) (d : Dict.t V) (k : string) :
  Dict.get k (Dict.update d other) =
  match Dict.get k (rev other) with
  | Some v => Some v
  | None => Dict.get k d
  end.
Proof.
  unfold Dict.update. revert d.
  induction other as [|[k' v'] other IH]; intros d; [reflexivity|].
  cbn [fold_left fst snd rev]. rewrite IH, get_app.
  destruct (Dict.get k (rev other)); [reflexivity|].
  cbn [Dict.get]. destruct (String.eqb k k') eqn:E.
  - apply String.eqb_eq in E. subst. apply get_set_same.
  - apply String.eqb_neq in E. now apply get_set_other.
Qed.

Lemma get_rev_None {V} (l : list (string * V)) (k : string) :
  ~ In k (map fst l) -> Dict.get k (rev l) = None.
Proof.
  intros H. apply get_None_keys. unfold Dict.keys.
  rewrite map_rev. intros Hin. apply H. now apply in_rev.
Qed.

Lemma get_fold_update_absent {V} (tables : list (list (string * V)))
    (d : Dict.t V) (k : string) :
  (forall t, In t tables -> ~ In k (map fst t)) ->
  Dict.get k (fold_left Dict.update tables d) = Dict.get k d.
Proof.
  revert d. induction tables as [|t tables IH]; intros d H; simpl;
    [reflexivity|].
  rewrite IH by (intros t' Ht'; apply H; now right).
  rewrite get_update, get_rev_None; [reflexivity|]. apply H. now left.
Qed.

(** X4. Last one wins: when line 33 merges a candidate's class table, all
    of it or the items before the point where the merge raises, and no
    candidate after it in the directory has the name merged again, the
    registry maps the name to the class given last among the merged items,
    whatever came before and however the candidate's [try] ends. *)
Theorem load_nodes_last_wins
    (before after : list candidate) (c : candidate) (m : module)
    (table : list (string * aux_class)) (raised : option import_error)
    (name : string) (u : aux_class) :
  startswith_dot (stem c) = false ->
  import_module c = Imported m ->
  NODE_CLASS_MAPPINGS m = Holds table raised ->
  Dict.get name (rev table) = Some u ->
  (forall c', In c' (attempted after) ->
              ~ In name (map fst (class_mappings_of c'))) ->
  exists registry display_names,
    load_nodes (before ++ c :: after) = Ok (registry, display_names)
    /\ Dict.get name registry = Some u.
Proof.
  intros Hdot Himp Hcm Hget Hafter.
  unfold load_nodes, load_nodes_loop.
  destruct (load_loop_from (before ++ c :: after) load_start)
    as [st (H1 & _ & _ & H4 & _)].
  rewrite H1. cbn [bind].
  exists (node_class_mappings st), (node_display_name_mappings st).
  split; [reflexivity|]. rewrite H4.
  change (c :: after) with ([c] ++ after).
  rewrite !attempted_app, !map_app, !fold_left_app.
  rewrite get_fold_update_absent.
  - assert (Hc : map class_mappings_of (attempted [c]) = [table]).
    { assert (Ht : class_mappings_of c = table).
      { unfold class_mappings_of. now rewrite Himp, Hcm. }
      unfold attempted. cbn [filter]. rewrite Hdot. cbn [negb map].
      now rewrite Ht. }
    rewrite Hc. cbn [fold_left]. rewrite get_update, Hget. reflexivity.
  - intros t Ht. apply in_map_iff in Ht. destruct Ht as [c' [<- Hc']].
    now apply Hafter.
Qed.

Lemma load_nodes_last_wins_witness :
  exists registry display_names,
    load_nodes
      (Examples.directory
       ++ {| stem := "canny_override";
             import_module :=
               Imported
                 {| NODE_CLASS_MAPPINGS :=
                      Holds [("CannyEdgePreprocessor", Examples.Masked)]
                        (Some AttributeError);
                    NODE_DISPLAY_NAME_MAPPINGS := Missing |} |}
       :: [MoreExamples.partial])
    = Ok (registry, display_names)
    /\ Dict.get "CannyEdgePreprocessor" registry = Some Examples.Masked.
Proof.
  eapply load_nodes_last_wins; try reflexivity.
  intros c' [<- | []]. cbn. intros [H | []]. discriminate H.
Defined.

(** X5. The diagnostics follow the directory: the lists hold, in directory
    order, one full traceback and one one-line summary (module name and
    last line of the traceback) for each candidate that failed on a generic
    error, and nothing else. *)
Theorem load_nodes_diagnostics_in_order (node_wrappers : list candidate) :
  exists st,
    load_nodes_loop node_wrappers = Ok st
    /\ full_error_messages st =
       map full_diagnostic (filter fails_generic (attempted node_wrappers))
    /\ shorted_errors st =
       map short_diagnostic (filter fails_generic (attempted node_wrappers)).
Proof.
  unfold load_nodes_loop.
  destruct (load_loop_from node_wrappers load_start)
    as [st (H1 & H2 & H3 & _ & _)].
  exists st. now repeat split.
Qed.

(** ** Argument building: what is bound and what is not *)

(** X6. In the merged schema a name that both groups declare has the entry of
    the optional group; any other name has the entry of its own group. *)
Theorem merge_input_types_optional_wins (its : input_types) (name : string) :
  Dict.get name (merge_input_types its) =
  match
    match optional its with
    | Some o => Dict.get name (rev o)
    | None => None
    end
  with
  | Some it => Some it
  | None => Dict.get name (rev (required its))
  end.
Proof.
  unfold merge_input_types. rewrite !get_update.
  destruct (optional its) as [o|]; cbn [rev Dict.get].
  - destruct (Dict.get name (rev o)); [reflexivity|].
    now destruct (Dict.get name (rev (required its))).
  - now destruct (Dict.get name (rev (required its))).
Qed.

(** X7. Neither adapter ever binds a name that the schema does not declare. *)
Theorem params_only_schema_names
    (schema : Dict.t input_type) (image resolution : pyvalue)
    (params : Dict.t pyvalue) (name : string) :
  AIO_params image resolution schema = Ok params
  \/ Selector_params image resolution schema = Ok params ->
  In name (Dict.keys params) -> In name (Dict.keys schema).
Proof.
  intros H Hin.
  destruct (in_dec string_dec name (Dict.keys schema)) as [Hs | Hs];
    [assumption|].
  exfalso. revert Hin. apply get_None_keys.
  destruct H as [H | H].
  - now rewrite (loop_frame AIO_fallback image resolution AIO_fallback_frame
                   schema Dict.empty params name H Hs).
  - now rewrite (loop_frame Selector_fallback image resolution
                   Selector_fallback_frame schema Dict.empty params name H Hs).
Qed.

Lemma params_only_schema_names_witness :
  In "low_threshold"
    (Dict.keys (merge_input_types (INPUT_TYPES Examples.Canny))).
Proof.
  apply (params_only_schema_names
           (merge_input_types (INPUT_TYPES Examples.Canny))
           Examples.the_image (VInt 512)
           [("image", Examples.the_image); ("low_threshold", VInt 100);
            ("high_threshold", VInt 200); ("resolution", VInt 512)]).
  - left. reflexivity.
  - simpl. tauto.
Defined.

Lemma bind_param_reaches fallback image resolution acc n it :
  reaches_fallback n it = true ->
  bind_param fallback image resolution acc (n, it) = fallback n it acc.
Proof.
  unfold bind_param, reaches_fallback, declared_default, Dict.mem.
  destruct (String.eqb n "image"); [discriminate|].
  destruct (String.eqb n "resolution"); [discriminate|].
  destruct (it_rest it) as [|options [|more rest]]; try reflexivity.
  now destruct (Dict.get "default" options).
Qed.

Lemma AIO_fallback_choices_ok name it options params params' :
  it_type it = VList options ->
  AIO_fallback name it params = Ok params' -> params' = params.
Proof.
  unfold AIO_fallback. intros ->.
  assert (Loop : forall whole l acc,
            py_dict_getitem default_values whole = Raise unhashable_type ->
            for_each l acc (fun params input_type_value =>
              found <- py_in_dict input_type_value default_values ;;
              if (found : bool) then
                v <- py_dict_getitem default_values whole ;;
                Ok (Dict.set name v params)
              else Ok params) = Ok params' -> params' = acc).
  { intros whole l. induction l as [|x l IH]; intros acc Hw; cbn [for_each].
    - now intros [= <-].
    - destruct (py_in_dict x default_values) as [[|]|]; cbn [bind];
        try discriminate.
      + rewrite Hw. discriminate.
      + now apply IH. }
  now apply Loop.
Qed.

(** X10. The enumerated-choice fallback of the unified dispatch never yields a
    value: whenever argument building succeeds, every combo entry without a
    declared default is left unbound. *)
Theorem AIO_choice_list_never_bound
    (its : input_types) (image resolution : pyvalue) (params : Dict.t pyvalue)
    (name : string) (it : input_type) (options : list pyvalue) :
  AIO_params image resolution (merge_input_types its) = Ok params ->
  Dict.get name (merge_input_types its) = Some it ->
  reaches_fallback name it = true ->
  it_type it = VList options ->
  Dict.get name params = None.
Proof.
  intros H Hget Hreach Htype. apply get_In in Hget.
  destruct (loop_at AIO_fallback image resolution AIO_fallback_frame _ _ _ _ _
              (merge_input_types_NoDup its) Hget H) as [a [a' (H1 & H2 & H3)]].
  rewrite bind_param_reaches in H1 by assumption.
  apply (AIO_fallback_choices_ok _ _ _ _ _ Htype) in H1. subst a'.
  now rewrite H3, H2.
Qed.

Lemma AIO_choice_list_never_bound_witness :
  Dict.get "schedule"
    [("image", Examples.the_image); ("resolution", VInt 512)] = None.
Proof.
  apply (AIO_choice_list_never_bound (INPUT_TYPES MoreExamples.Scheduled)
           Examples.the_image (VInt 512)
           [("image", Examples.the_image); ("resolution", VInt 512)]
           "schedule"
           {| it_type := VList [VStr "linear"; VStr "cosine"]; it_rest := [] |}
           [VStr "linear"; VStr "cosine"]);
    reflexivity.
Defined.

(** X11. The selector cannot build arguments for a unit that has a combo entry
    without a declared default: it raises a [TypeError], whatever the
    choices are and wherever the entry stands in the schema. *)
Theorem Selector_rejects_choice_lists
    (its : input_types) (image resolution : pyvalue)
    (name : string) (it : input_type) (options : list pyvalue) :
  Dict.get name (merge_input_types its) = Some it ->
  reaches_fallback name it = true ->
  it_type it = VList options ->
  Selector_params image resolution (merge_input_types its)
  = Raise unhashable_type.
Proof.
  intros Hget Hreach Htype. apply get_In in Hget.
  destruct (Selector_params image resolution (merge_input_types its))
    as [params|e] eqn:E.
  - exfalso.
    destruct (loop_at Selector_fallback image resolution
                Selector_fallback_frame _ _ _ _ _
                (merge_input_types_NoDup its) Hget E) as [a [a' (H1 & _ & _)]].
    rewrite bind_param_reaches in H1 by assumption.
    unfold Selector_fallback in H1. rewrite Htype in H1. discriminate.
  - f_equal.
    exact (loop_raise Selector_fallback image resolution
             Selector_fallback_raise _ _ _ E).
Qed.

Lemma Selector_rejects_choice_lists_witness :
  Selector_params Examples.the_image (VInt 512)
    (merge_input_types (INPUT_TYPES MoreExamples.Scheduled))
  = Raise unhashable_type.
Proof.
  apply (Selector_rejects_choice_lists (INPUT_TYPES MoreExamples.Scheduled)
           Examples.the_image (VInt 512) "schedule"
           {| it_type := VList [VStr "linear"; VStr "cosine"]; it_rest := [] |}
           [VStr "linear"; VStr "cosine"]);
    reflexivity.
Defined.

Lemma Selector_step_is_AIO_step image resolution acc item acc' :
  bind_param Selector_fallback image resolution acc item = Ok acc' ->
  bind_param AIO_fallback image resolution acc item = Ok acc'.
Proof.
  destruct item as [n it]. unfold bind_param.
  assert (F : Selector_fallback n it acc = Ok acc' ->
              AIO_fallback n it acc = Ok acc').
  { unfold Selector_fallback, AIO_fallback.
    destruct (it_type it); try exact (fun H => H). discriminate. }
  destruct (String.eqb n "image"); [exact (fun H => H)|].
  destruct (String.eqb n "resolution"); [exact (fun H => H)|].
  destruct (it_rest it) as [|options [|more rest]]; try exact F.
  destruct (Dict.mem "default" options); [exact (fun H => H) | exact F].
Qed.

(** X12. Whenever the selector builds an argument set for a schema, the unified
    dispatch builds the same set for it: the two loops differ only where
    the selector fails. *)
Theorem Selector_params_agree_with_AIO
    (schema : Dict.t input_type) (image resolution : pyvalue)
    (params : Dict.t pyvalue) :
  Selector_params image resolution schema = Ok params ->
  AIO_params image resolution schema = Ok params.
Proof.
  unfold Selector_params, AIO_params. generalize (@Dict.empty pyvalue).
  induction schema as [|item schema IH]; intros acc; cbn [for_each];
    [exact (fun H => H)|].
  destruct (bind_param Selector_fallback image resolution acc item)
    as [acc1|e] eqn:E; cbn [bind]; [|discriminate].
  rewrite (Selector_step_is_AIO_step _ _ _ _ _ E). cbn [bind]. apply IH.
Qed.

Lemma Selector_params_agree_with_AIO_witness :
  AIO_params Examples.the_image (VInt 512)
    (merge_input_types (INPUT_TYPES MoreExamples.Redeclared))
  = Ok [("image", Examples.the_image); ("resolution", VInt 512);
        ("strength", VFloat 0)].
Proof.
  apply Selector_params_agree_with_AIO. reflexivity.
Defined.

(** ** Dispatch: what the entry points do and in which order *)

(** X14. With "none" selected in the prompt the selector returns the loaded
    model and the input image: it loads the model and prints the prompt,
    and reads no registry entry and calls no unit. *)
Theorem get_preprocessor_none
    (load_controlnet : pyvalue -> result pyvalue) (reg : Dict.t aux_class)
    (cn image : pyvalue) (resolution prompt my_unique_id : option pyvalue)
    (cnmodel cnprepro : pyvalue) :
  load_controlnet cn = Ok cnmodel ->
  (node <- py_getitem (or_default prompt VNone) (or_default my_unique_id VNone) ;;
   inputs <- py_getitem node (VStr "inputs") ;;
   py_getitem inputs (VStr "select_styles")) = Ok cnprepro ->
  py_eq_str cnprepro "none" = true ->
  get_preprocessor load_controlnet reg cn image resolution prompt my_unique_id
  = ([EvLoadControlnet cn; EvPrint (or_default prompt VNone)],
     Ok (VTuple [cnmodel; image])).
Proof.
  intros Hcn Hprompt Hnone. unfold get_preprocessor, tbind, emit, lift.
  rewrite Hcn, Hprompt, Hnone. reflexivity.
Qed.

Lemma get_preprocessor_none_witness :
  get_preprocessor Examples.load_controlnet Examples.registry
    (VStr "control_v11p_sd15_canny.pth") Examples.the_image None
    (Some (Examples.the_prompt "none")) (Some (VStr "7"))
  = ([EvLoadControlnet (VStr "control_v11p_sd15_canny.pth");
      EvPrint (or_default (Some (Examples.the_prompt "none")) VNone)],
     Ok (VTuple [Examples.the_cnmodel; Examples.the_image])).
Proof.
  apply (get_preprocessor_none Examples.load_controlnet Examples.registry
           (VStr "control_v11p_sd15_canny.pth") Examples.the_image None
           (Some (Examples.the_prompt "none")) (Some (VStr "7"))
           Examples.the_cnmodel (VStr "none"));
    reflexivity.
Defined.

(** X15. The defaults [prompt=None] and [my_unique_id=None] of the selector are
    not usable: called without a prompt it loads the model, prints [None]
    and raises a [TypeError] on [prompt[my_unique_id]], and a model that
    fails to load ends the call before anything else. *)
Theorem get_preprocessor_without_prompt
    (load_controlnet : pyvalue -> result pyvalue) (reg : Dict.t aux_class)
    (cn image : pyvalue) (resolution my_unique_id : option pyvalue) :
  get_preprocessor load_controlnet reg cn image resolution None my_unique_id =
  match load_controlnet cn with
  | Ok _ =>
      ([EvLoadControlnet cn; EvPrint VNone],
       Raise (TypeError "object is not subscriptable"))
  | Raise e => ([EvLoadControlnet cn], Raise e)
  end.
Proof.
  unfold get_preprocessor, tbind, emit, lift.
  now destruct (load_controlnet cn).
Qed.

(** ** The composer: size, shape and depth of the graph *)

Lemma pair_induction {A} (P : list A -> Prop) :
  P [] -> (forall a, P [a]) -> (forall a b l, P l -> P (a :: b :: l)) ->
  forall l, P l.
Proof.
  intros H0 H1 H2.
  assert (H : forall l, P l /\ forall a, P (a :: l)).
  { induction l as [|b l [IH1 IH2]]; split; auto. }
  intros l. apply H.
Qed.

Lemma nodes_of_class_app c g1 g2 :
  nodes_of_class c (g1 ++ g2) = nodes_of_class c g1 ++ nodes_of_class c g2.
Proof. apply filter_app. Qed.

(** One round adds one merge node for each pair and nothing else: merge
    nodes and outputs left add up to the outputs found. *)
Lemma merge_pairs_counts l :
  forall g,
    let r := merge_pairs l g in
    (exists batches,
       nodes (snd r) = nodes g ++ batches
       /\ Forall (fun n => class_type n = "ImageBatch") batches
       /\ length batches + length (fst r) = length l)
    /\ id_gen (snd r) + length (fst r) = id_gen g + length l.
Proof.
  induction l as [| a | a b l IH] using pair_induction; intros g; cbn zeta.
  - split; [exists []; rewrite app_nil_r; now repeat split | reflexivity].
  - split; [exists []; rewrite app_nil_r; now repeat split | reflexivity].
  - cbn [merge_pairs graph_node_new].
    set (g1 := {| nodes := _; id_gen := _ |}).
    destruct (IH g1) as [[batches (Hn & Hb & Hl)] Hid].
    destruct (merge_pairs l g1) as [outs g2]. cbn [fst snd] in *.
    split.
    + eexists. rewrite Hn. unfold g1. cbn [nodes]. rewrite <- app_assoc.
      split; [reflexivity|]. split.
      * constructor; [reflexivity | exact Hb].
      * cbn [length app]. lia.
    + unfold g1 in Hid. cbn [id_gen] in Hid. cbn [length]. lia.
Qed.

Lemma merge_rounds_counts fuel :
  forall outs g,
    let r := snd (merge_rounds fuel outs g) in
    exists batches,
      nodes (snd r) = nodes g ++ batches
      /\ Forall (fun n => class_type n = "ImageBatch") batches
      /\ length batches + length (fst r) = length outs.
Proof.
  induction fuel as [|fuel IH]; intros outs g; cbn zeta.
  - exists []. rewrite app_nil_r. now repeat split.
  - cbn [merge_rounds]. destruct (1 <? length outs)%nat.
    + destruct (proj1 (merge_pairs_counts outs g)) as [b1 (Hn1 & Hb1 & Hl1)].
      destruct (merge_pairs outs g) as [outs' g']. cbn [fst snd] in *.
      destruct (IH outs' g') as [b2 (Hn2 & Hb2 & Hl2)].
      destruct (merge_rounds fuel outs' g') as [seen final]. cbn [snd] in *.
      exists (b1 ++ b2). rewrite Hn2, Hn1, <- app_assoc.
      split; [reflexivity|]. split; [now apply Forall_app|].
      rewrite length_app. lia.
    + exists []. rewrite app_nil_r. now repeat split.
Qed.

Lemma fan_out_counts image resolution opts :
  forall outs g,
    let r := fold_left (fan_out_one image resolution) opts (outs, g) in
    length (nodes_of_class "AIO_Preprocessor" (nodes (snd r)))
    = length (nodes_of_class "AIO_Preprocessor" (nodes g)) + length opts
    /\ length (nodes_of_class "ControlNetAuxSimpleAddText" (nodes (snd r)))
       = length (nodes_of_class "ControlNetAuxSimpleAddText" (nodes g))
         + length opts
    /\ length (nodes_of_class "ImageBatch" (nodes (snd r)))
       = length (nodes_of_class "ImageBatch" (nodes g))
    /\ length (nodes (snd r)) = length (nodes g) + 2 * length opts.
Proof.
  induction opts as [|o opts IH]; intros outs g; cbn zeta.
  - cbn. repeat split; lia.
  - cbn [fold_left fan_out_one graph_node_new].
    match goal with |- context [fold_left _ opts (?o1, ?g1)] =>
      destruct (IH o1 g1) as (H1 & H2 & H3 & H4) end.
    cbn zeta in *. rewrite H1, H2, H3, H4. cbn [nodes length].
    rewrite !nodes_of_class_app, !length_app. cbn. repeat split; lia.
Qed.

Lemma nodes_of_class_batches c batches :
  Forall (fun n => class_type n = "ImageBatch") batches ->
  nodes_of_class c batches =
  if String.eqb "ImageBatch" c then batches else [].
Proof.
  induction 1 as [|n l Hn _ IH]; [now destruct (String.eqb _ c)|].
  unfold nodes_of_class in *. cbn [filter]. rewrite Hn, IH.
  now destruct (String.eqb "ImageBatch" c).
Qed.

(** X19. For every non-empty list of [n] options the graph has one dispatch
    node and one label node per option and [n - 1] merge nodes, [3n - 1]
    nodes in all, and no node of another class. *)
Theorem composer_node_counts
    (opts : list string) (image : pyvalue) (resolution : option pyvalue) :
  opts <> [] ->
  exists r,
    ExecuteAll_execute true opts image resolution = Ok r
    /\ length (nodes_of_class "AIO_Preprocessor" (out_expand r)) = length opts
    /\ length (nodes_of_class "ControlNetAuxSimpleAddText" (out_expand r))
       = length opts
    /\ length (nodes_of_class "ImageBatch" (out_expand r)) = length opts - 1
    /\ length (out_expand r) = 3 * length opts - 1.
Proof.
  intros Hne. unfold ExecuteAll_execute. cbn [negb].
  pose proof (fan_out_length opts image (or_default resolution (VInt 512))) as Hlen.
  pose proof (fan_out_counts image (or_default resolution (VInt 512)) opts
                [] GraphBuilder_new) as Hc.
  cbn zeta in Hc. fold (fan_out opts image (or_default resolution (VInt 512))) in Hc.
  destruct (fan_out opts image (or_default resolution (VInt 512))) as [outs g].
  cbn [fst snd] in *.
  assert (Hpos : 1 <= length opts) by (destruct opts; [congruence | simpl; lia]).
  pose proof (merge_rounds_ends (length outs) outs g) as Hend.
  pose proof (merge_rounds_counts (length outs) outs g) as Hm.
  unfold reduce_pairwise. cbn zeta in Hm.
  destruct (snd (merge_rounds (length outs) outs g)) as [final g'].
  cbn [fst snd] in *.
  destruct Hm as [batches (Hn & Hb & Hl)].
  destruct Hc as (C1 & C2 & C3 & C4). cbn in C1, C2, C3, C4.
  assert (Hf : length final = 1) by (apply Hend; lia).
  destruct final as [|first rest]; [discriminate|].
  eexists. split; [reflexivity|]. cbn [out_expand]. unfold finalize.
  rewrite Hn, !nodes_of_class_app, !length_app.
  rewrite !(nodes_of_class_batches _ _ Hb). cbn [String.eqb Ascii.eqb Bool.eqb].
  cbn [length]. rewrite C1, C2, C3, C4. simpl length in Hf. repeat split; lia.
Qed.

Lemma composer_node_counts_witness :
  exists r,
    ExecuteAll_execute true (preprocessor_options Examples.with_excluded)
      Examples.the_image None = Ok r
    /\ length (nodes_of_class "AIO_Preprocessor" (out_expand r)) = 3
    /\ length (nodes_of_class "ControlNetAuxSimpleAddText" (out_expand r)) = 3
    /\ length (nodes_of_class "ImageBatch" (out_expand r)) = 2
    /\ length (out_expand r) = 8.
Proof.
  apply (composer_node_counts (preprocessor_options Examples.with_excluded)
           Examples.the_image None).
  discriminate.
Defined.

Lemma node_new_wf g c ins :
  graph_wf g ->
  Forall (fun id => 1 <= id < id_gen g)
    (linked_ids {| node_id := id_gen g; class_type := c; inputs := ins |}) ->
  graph_wf (snd (graph_node_new g c ins)).
Proof.
  unfold graph_wf. intros (Hids & Hgen & Hlinks) Hnew.
  cbn [graph_node_new snd nodes id_gen].
  rewrite map_app, length_app, Forall_app. cbn [map length node_id].
  split; [|split; [|split]].
  - rewrite seq_app, Hids, Hgen. reflexivity.
  - rewrite Hgen. lia.
  - exact Hlinks.
  - constructor; [exact Hnew | constructor].
Qed.

Lemma outputs_in_mono g g' outs :
  id_gen g <= id_gen g' -> outputs_in g outs -> outputs_in g' outs.
Proof.
  unfold outputs_in. intros Hle H. eapply Forall_impl; [|exact H].
  intros o [id [-> Hid]]. exists id. split; [reflexivity | lia].
Qed.

Lemma graph_wf_pos g : graph_wf g -> 1 <= id_gen g.
Proof. intros (_ & H & _). lia. Qed.

Lemma fan_out_wf image resolution opts :
  forall outs g,
    graph_wf g -> outputs_in g outs ->
    let r := fold_left (fan_out_one image resolution) opts (outs, g) in
    graph_wf (snd r) /\ outputs_in (snd r) (fst r).
Proof.
  induction opts as [|o opts IH]; intros outs g Hwf Hout; cbn zeta;
    [now split|].
  cbn [fold_left fan_out_one].
  pose proof (graph_wf_pos g Hwf) as Hpos.
  assert (Hwf1 : graph_wf (snd (graph_node_new g "AIO_Preprocessor"
                                  [("preprocessor", Const (VStr o));
                                   ("image", Const image);
                                   ("resolution", Const resolution)]))).
  { apply node_new_wf; [assumption | constructor]. }
  cbn [graph_node_new snd] in Hwf1 |- *.
  match type of Hwf1 with graph_wf ?g1 =>
    assert (Hwf2 : graph_wf (snd (graph_node_new g1 "ControlNetAuxSimpleAddText"
                                    [("image", out (id_gen g) 0);
                                     ("text", Const (VStr o))])))
  end.
  { apply node_new_wf; [assumption|].
    cbn. constructor; [lia | constructor]. }
  cbn [graph_node_new snd id_gen nodes] in Hwf2 |- *.
  apply IH; [exact Hwf2|].
  unfold outputs_in. apply Forall_app. split.
  - apply (outputs_in_mono g); [cbn; lia | exact Hout].
  - constructor; [|constructor]. eexists. split; [reflexivity|]. cbn. lia.
Qed.

Lemma merge_pairs_wf l :
  forall g,
    graph_wf g -> outputs_in g l ->
    let r := merge_pairs l g in
    graph_wf (snd r) /\ outputs_in (snd r) (fst r)
    /\ id_gen g <= id_gen (snd r).
Proof.
  induction l as [| a | a b l IH] using pair_induction;
    intros g Hwf Hout; cbn zeta.
  - cbn [merge_pairs fst snd]. split; [assumption|]. split; [assumption | lia].
  - cbn [merge_pairs fst snd]. split; [assumption|]. split; [assumption | lia].
  - cbn [merge_pairs].
    inversion Hout as [|? ? [ia [-> Hia]] Hout1]; subst.
    inversion Hout1 as [|? ? [ib [-> Hib]] Hout2]; subst.
    assert (Hwf1 : graph_wf (snd (graph_node_new g "ImageBatch"
                                    [("image1", Link ia 0);
                                     ("image2", Link ib 0)]))).
    { apply node_new_wf; [assumption|].
      cbn. repeat constructor; lia. }
    cbn [graph_node_new snd] in Hwf1 |- *.
    match type of Hwf1 with graph_wf ?g1 =>
      destruct (IH g1 Hwf1) as (W & O & M);
        [apply (outputs_in_mono g); [cbn; lia | exact Hout2]|];
        destruct (merge_pairs l g1) as [outs g2]
    end.
    cbn [fst snd id_gen] in *. split; [assumption|]. split; [|lia].
    constructor; [|assumption].
    eexists. split; [reflexivity|]. pose proof (graph_wf_pos g Hwf). lia.
Qed.

Lemma merge_rounds_wf fuel :
  forall outs g,
    graph_wf g -> outputs_in g outs ->
    let r := snd (merge_rounds fuel outs g) in
    graph_wf (snd r) /\ outputs_in (snd r) (fst r).
Proof.
  induction fuel as [|fuel IH]; intros outs g Hwf Hout; cbn zeta;
    [now split|].
  cbn [merge_rounds]. destruct (1 <? length outs)%nat; [|now split].
  destruct (merge_pairs_wf outs g Hwf Hout) as (W & O & _).
  destruct (merge_pairs outs g) as [outs' g']. cbn [fst snd] in *.
  specialize (IH outs' g' W O). cbn zeta in IH.
  now destruct (merge_rounds fuel outs' g') as [seen final].
Qed.

Lemma GraphBuilder_new_wf : graph_wf GraphBuilder_new.
Proof. unfold graph_wf. cbn. repeat split; constructor. Qed.

(** X20. The graph the composer returns is a well-formed description: its nodes
    carry the ids 1, 2, ... in order, every node reads only output ports of
    nodes that come before it (so the graph has no cycle and no dangling
    link), and the result is port 0 of a node of the graph. *)
Theorem composer_graph_well_formed
    (opts : list string) (image : pyvalue) (resolution : option pyvalue)
    (r : expansion) :
  ExecuteAll_execute true opts image resolution = Ok r ->
  map node_id (out_expand r) = seq 1 (length (out_expand r))
  /\ Forall (fun n => Forall (fun id => 1 <= id < node_id n) (linked_ids n))
       (out_expand r)
  /\ exists id, out_result r = [Link id 0] /\ 1 <= id <= length (out_expand r).
Proof.
  unfold ExecuteAll_execute. cbn [negb].
  pose proof (fan_out_wf image (or_default resolution (VInt 512)) opts
                [] GraphBuilder_new GraphBuilder_new_wf (Forall_nil _)) as Hf.
  cbn zeta in Hf. fold (fan_out opts image (or_default resolution (VInt 512))) in Hf.
  destruct (fan_out opts image (or_default resolution (VInt 512))) as [outs g].
  cbn [fst snd] in Hf. destruct Hf as [Hwf Hout].
  pose proof (merge_rounds_wf (length outs) outs g Hwf Hout) as Hm.
  unfold reduce_pairwise. cbn zeta in Hm.
  destruct (snd (merge_rounds (length outs) outs g)) as [final g'].
  cbn [fst snd] in Hm. destruct Hm as [(Hids & Hgen & Hlinks) Hfinal].
  destruct final as [|first rest]; [discriminate|].
  intros [= <-]. cbn [out_expand out_result]. unfold finalize.
  split; [exact Hids|]. split; [exact Hlinks|].
  inversion Hfinal as [|? ? [id [-> Hid]] _]; subst.
  exists id. split; [reflexivity | lia].
Qed.

Lemma composer_graph_well_formed_witness :
  exists r,
    ExecuteAll_execute true (preprocessor_options Examples.five_units)
      Examples.the_image None = Ok r
    /\ map node_id (out_expand r) = seq 1 (length (out_expand r))
    /\ Forall (fun n => Forall (fun id => 1 <= id < node_id n) (linked_ids n))
         (out_expand r)
    /\ exists id, out_result r = [Link id 0] /\ 1 <= id <= length (out_expand r).
Proof.
  eexists. split; [vm_compute; reflexivity|].
  apply (composer_graph_well_formed (preprocessor_options Examples.five_units)
           Examples.the_image None).
  vm_compute. reflexivity.
Defined.

Lemma log2_up_halves n :
  2 <= n -> Nat.log2_up n = S (Nat.log2_up (Nat.div2 (S n))).
Proof.
  intros H. rewrite (Nat.log2_up_eqn n) by lia.
  destruct (Nat.eq_dec n 2) as [-> | Hn2]; [reflexivity|].
  pose proof (Nat.div2_odd (S n)) as E.
  rewrite (Nat.log2_up_eqn (Nat.div2 (S n)))
    by (destruct (Nat.odd (S n)); simpl Nat.b2n in E; lia).
  f_equal.
  assert (Hp : exists k, 0 < k /\ Nat.pred (Nat.div2 (S n)) = k
                         /\ (Nat.pred n = 2 * k \/ Nat.pred n = S (2 * k))).
  { exists (Nat.pred (Nat.div2 (S n))).
    destruct (Nat.odd (S n)); simpl Nat.b2n in E; repeat split; lia. }
  destruct Hp as [k (Hk & -> & [-> | ->])].
  - now apply Nat.log2_double.
  - replace (S (2 * k)) with (2 * k + 1) by lia. now apply Nat.log2_succ_double.
Qed.

Lemma merge_rounds_depth fuel :
  forall outs g,
    length outs <= fuel ->
    length (fst (merge_rounds fuel outs g)) = S (Nat.log2_up (length outs)).
Proof.
  induction fuel as [|fuel IH]; intros outs g H.
  - destruct outs; [reflexivity | simpl in H; lia].
  - cbn [merge_rounds]. destruct (1 <? length outs)%nat eqn:E.
    + apply Nat.ltb_lt in E.
      pose proof (proj1 (merge_pairs_length outs g)) as Hl.
      destruct (merge_pairs outs g) as [outs' g']. cbn [fst] in Hl.
      pose proof (div2_succ_lt (length outs) E).
      specialize (IH outs' g').
      destruct (merge_rounds fuel outs' g') as [seen final].
      cbn [fst length] in *. rewrite IH by lia.
      rewrite Hl. now rewrite <- log2_up_halves.
    + apply Nat.ltb_ge in E. cbn [fst length].
      destruct outs as [|a [|b outs]]; [reflexivity | reflexivity|].
      simpl in E. lia.
Qed.

Lemma merge_rounds_first fuel outs g :
  exists rest, fst (merge_rounds fuel outs g) = outs :: rest.
Proof.
  destruct fuel as [|fuel]; cbn [merge_rounds]; [now exists []|].
  destruct (1 <? length outs)%nat; [|now exists []].
  destruct (merge_pairs outs g) as [outs' g'].
  destruct (merge_rounds fuel outs' g') as [seen final]. now exists seen.
Qed.

Lemma merge_rounds_halving fuel :
  forall outs g i k k',
    nth_error (map (@length graph_input) (fst (merge_rounds fuel outs g))) i
    = Some k ->
    nth_error (map (@length graph_input) (fst (merge_rounds fuel outs g))) (S i)
    = Some k' ->
    k' = Nat.div2 (S k).
Proof.
  induction fuel as [|fuel IH]; intros outs g i k k'.
  - cbn. destruct i; cbn; [discriminate | now destruct i].
  - cbn [merge_rounds]. destruct (1 <? length outs)%nat.
    + pose proof (proj1 (merge_pairs_length outs g)) as Hl.
      destruct (merge_pairs outs g) as [outs' g']. cbn [fst] in Hl.
      specialize (IH outs' g').
      destruct (merge_rounds_first fuel outs' g') as [rest Hrest].
      destruct (merge_rounds fuel outs' g') as [seen final].
      cbn [fst map] in *. subst seen.
      destruct i as [|i]; cbn [nth_error map].
      * intros [= <-] [= <-]. exact Hl.
      * apply IH.
    + cbn. destruct i; cbn; [discriminate | now destruct i].
Qed.

(** X22. The reduction takes exactly ceil(log2 n) merge rounds for [n] options,
    and each round leaves ceil(k/2) of the [k] outputs it found. *)
Theorem composer_merge_depth
    (opts : list string) (image resolution : pyvalue) :
  let fanned := fan_out opts image resolution in
  let seen := fst (reduce_pairwise (fst fanned) (snd fanned)) in
  length seen = S (Nat.log2_up (length opts))
  /\ forall i k k',
       nth_error (map (@length graph_input) seen) i = Some k ->
       nth_error (map (@length graph_input) seen) (S i) = Some k' ->
       k' = Nat.div2 (S k).
Proof.
  cbn zeta. pose proof (fan_out_length opts image resolution) as Hlen.
  destruct (fan_out opts image resolution) as [outs g]. cbn [fst snd] in *.
  unfold reduce_pairwise. split.
  - rewrite merge_rounds_depth by lia. now rewrite Hlen.
  - apply merge_rounds_halving.
Qed.

Lemma fan_out_one_nodes image resolution outs g o :
  let st := fan_out_one image resolution (outs, g) o in
  nodes (snd st) =
  nodes g
  ++ [ {| node_id := id_gen g; class_type := "AIO_Preprocessor";
          inputs := [("preprocessor", Const (VStr o));
                     ("image", Const image);
                     ("resolution", Const resolution)] |};
       {| node_id := S (id_gen g); class_type := "ControlNetAuxSimpleAddText";
          inputs := [("image", Link (id_gen g) 0);
                     ("text", Const (VStr o))] |} ]
  /\ id_gen (snd st) = S (S (id_gen g)).
Proof. cbn. rewrite <- app_assoc. now split. Qed.

Lemma fan_out_appends image resolution opts :
  forall st,
    exists extra,
      nodes (snd (fold_left (fan_out_one image resolution) opts st))
      = nodes (snd st) ++ extra.
Proof.
  induction opts as [|o opts IH]; intros [outs g].
  - exists []. cbn. now rewrite app_nil_r.
  - cbn [fold_left].
    destruct (IH (fan_out_one image resolution (outs, g) o)) as [extra He].
    rewrite He.
    rewrite (proj1 (fan_out_one_nodes image resolution outs g o)).
    cbn [snd]. rewrite <- app_assoc. now eexists.
Qed.

Lemma fan_out_nth image resolution opts :
  forall outs g i o,
    nth_error opts i = Some o ->
    let built := nodes (snd (fold_left (fan_out_one image resolution) opts
                               (outs, g))) in
    nth_error built (length (nodes g) + 2 * i)
    = Some {| node_id := id_gen g + 2 * i; class_type := "AIO_Preprocessor";
              inputs := [("preprocessor", Const (VStr o));
                         ("image", Const image);
                         ("resolution", Const resolution)] |}
    /\ nth_error built (length (nodes g) + 2 * i + 1)
       = Some {| node_id := id_gen g + 2 * i + 1;
                 class_type := "ControlNetAuxSimpleAddText";
                 inputs := [("image", Link (id_gen g + 2 * i) 0);
                            ("text", Const (VStr o))] |}.
Proof.
  induction opts as [|o' opts IH]; intros outs g i o Hi; cbn zeta;
    [destruct i; discriminate|].
  cbn [fold_left].
  destruct (fan_out_one_nodes image resolution outs g o') as [Hn Hg].
  cbn zeta in Hn, Hg.
  destruct (fan_out_one image resolution (outs, g) o') as [outs1 g1].
  cbn [snd] in Hn, Hg.
  destruct i as [|i].
  - injection Hi as ->.
    destruct (fan_out_appends image resolution opts (outs1, g1)) as [extra He].
    rewrite He. cbn [snd]. rewrite Hn, <- app_assoc.
    rewrite !Nat.mul_0_r, !Nat.add_0_r.
    split.
    + rewrite nth_error_app2 by lia. now rewrite Nat.sub_diag.
    + rewrite nth_error_app2 by lia.
      replace (length (nodes g) + 1 - length (nodes g)) with 1 by lia.
      replace (id_gen g + 1) with (S (id_gen g)) by lia.
      reflexivity.
  - cbn [nth_error] in Hi.
    destruct (IH outs1 g1 i o Hi) as [H1 H2].
    rewrite Hn, Hg, length_app in H1, H2. cbn [length] in H1, H2.
    replace (length (nodes g) + 2 * S i)
      with (length (nodes g) + 2 + 2 * i) by lia.
    replace (id_gen g + 2 * S i) with (S (S (id_gen g)) + 2 * i) by lia.
    now split.
Qed.

(** X21. The graph starts with the fan-out, in option order: for the [i]-th
    option (counting from 0) node [2i+1] dispatches that option on the
    caller's image at the caller's resolution, and node [2i+2] labels
    output 0 of that node with the option's name. *)
Theorem composer_fan_out_order
    (opts : list string) (image : pyvalue) (resolution : option pyvalue)
    (r : expansion) (i : nat) (o : string) :
  ExecuteAll_execute true opts image resolution = Ok r ->
  nth_error opts i = Some o ->
  nth_error (out_expand r) (2 * i)
  = Some {| node_id := 2 * i + 1; class_type := "AIO_Preprocessor";
            inputs := [("preprocessor", Const (VStr o));
                       ("image", Const image);
                       ("resolution",
                        Const (or_default resolution (VInt 512)))] |}
  /\ nth_error (out_expand r) (2 * i + 1)
     = Some {| node_id := 2 * i + 2;
               class_type := "ControlNetAuxSimpleAddText";
               inputs := [("image", Link (2 * i + 1) 0);
                          ("text", Const (VStr o))] |}.
Proof.
  unfold ExecuteAll_execute. cbn [negb]. intros Hr Hi.
  pose proof (fan_out_nth image (or_default resolution (VInt 512)) opts
                [] GraphBuilder_new i o Hi) as Hn.
  pose proof (fan_out_counts image (or_default resolution (VInt 512)) opts
                [] GraphBuilder_new) as Hc.
  cbn zeta in Hn, Hc.
  fold (fan_out opts image (or_default resolution (VInt 512))) in Hn, Hc.
  destruct (fan_out opts image (or_default resolution (VInt 512))) as [outs g].
  cbn [fst snd] in *. destruct Hc as (_ & _ & _ & Hlen).
  pose proof (merge_rounds_counts (length outs) outs g) as Hm.
  unfold reduce_pairwise in Hr. cbn zeta in Hm.
  destruct (snd (merge_rounds (length outs) outs g)) as [final g'].
  cbn [fst snd] in *. destruct Hm as [batches (Hnodes & _ & _)].
  destruct final as [|first rest]; [discriminate|].
  injection Hr as <-. cbn [out_expand]. unfold finalize. rewrite Hnodes.
  assert (Hlt : i < length opts) by (apply nth_error_Some; congruence).
  cbn [GraphBuilder_new nodes id_gen length] in Hn, Hlen.
  destruct Hn as [H1 H2].
  rewrite !nth_error_app1 by lia.
  replace (2 * i + 1) with (1 + 2 * i) by lia.
  replace (2 * i + 2) with (1 + 2 * i + 1) by lia.
  split; [exact H1|]. replace (1 + 2 * i) with (0 + 2 * i + 1) at 1 by lia.
  exact H2.
Qed.

Lemma composer_fan_out_order_witness :
  nth_error
    [ {| node_id := 1; class_type := "AIO_Preprocessor";
         inputs := [("preprocessor", Const (VStr "none"));
                    ("image", Const Examples.the_image);
                    ("resolution", Const (VInt 512))] |};
      {| node_id := 2; class_type := "ControlNetAuxSimpleAddText";
         inputs := [("image", Link 1 0); ("text", Const (VStr "none"))] |} ]
    (2 * 0)
  = Some {| node_id := 2 * 0 + 1; class_type := "AIO_Preprocessor";
            inputs := [("preprocessor", Const (VStr "none"));
                       ("image", Const Examples.the_image);
                       ("resolution", Const (or_default None (VInt 512)))] |}
  /\ nth_error
       [ {| node_id := 1; class_type := "AIO_Preprocessor";
            inputs := [("preprocessor", Const (VStr "none"));
                       ("image", Const Examples.the_image);
                       ("resolution", Const (VInt 512))] |};
         {| node_id := 2; class_type := "ControlNetAuxSimpleAddText";
            inputs := [("image", Link 1 0); ("text", Const (VStr "none"))] |} ]
       (2 * 0 + 1)
     = Some {| node_id := 2 * 0 + 2;
               class_type := "ControlNetAuxSimpleAddText";
               inputs := [("image", Link (2 * 0 + 1) 0);
                          ("text", Const (VStr "none"))] |}.
Proof.
  apply (composer_fan_out_order (preprocessor_options []) Examples.the_image
           None
           {| out_result := [Link 2 0];
              out_expand :=
                [ {| node_id := 1; class_type := "AIO_Preprocessor";
                     inputs := [("preprocessor", Const (VStr "none"));
                                ("image", Const Examples.the_image);
                                ("resolution", Const (VInt 512))] |};
                  {| node_id := 2; class_type := "ControlNetAuxSimpleAddText";
                     inputs := [("image", Link 1 0);
                                ("text", Const (VStr "none"))] |} ] |}
           0 "none");
    reflexivity.
Defined.

(** ** The node tables: which class a name gets *)

Lemma get_of_items {V} (l : list (string * V)) (k : string) :
  Dict.get k (Dict.of_items l) = Dict.get k (rev l).
Proof.
  unfold Dict.of_items. rewrite get_update.
  now destruct (Dict.get k (rev l)).
Qed.

Lemma get_rev_NoDup {V} (l : list (string * V)) (k : string) :
  NoDup (map fst l) -> Dict.get k (rev l) = Dict.get k l.
Proof.
  intros Hnd. destruct (Dict.get k l) as [v|] eqn:E.
  - apply In_get.
    + unfold Dict.keys. rewrite map_rev. now apply NoDup_rev.
    + apply in_rev. rewrite rev_involutive. now apply get_In.
  - apply get_rev_None. now apply get_None_keys.
Qed.

Lemma get_map_values {V W} (f : V -> W) (l : list (string * V)) (k : string) :
  Dict.get k (map (fun kv => (fst kv, f (snd kv))) l)
  = option_map f (Dict.get k l).
Proof.
  induction l as [|[k' v'] l IH]; cbn; [reflexivity|].
  now destruct (String.eqb k k').
Qed.

(** X23. Which class the host finds under a name: the package's composer and
    label nodes always win; then a class of [hint_image_enchance]; then the
    package's two dispatch nodes; a discovered unit only under a name none
    of these use.  The display names follow the same order, and the label
    node has no display name of the package's own. *)
Theorem node_tables_priority {H}
    (aux : Dict.t aux_class) (aux_names : Dict.t string)
    (hie : list (string * H)) (hie_names : list (string * string))
    (name : string) :
  NoDup (Dict.keys aux) -> NoDup (Dict.keys aux_names) ->
  Dict.get name (NODE_CLASS_MAPPINGS_of aux hie) =
    match
      Dict.get name
        [("ControlNetAuxSimpleAddText", OwnClass ControlNetAuxSimpleAddText);
         ("ExecuteAllControlNetPreprocessors",
          OwnClass ExecuteAllControlNetPreprocessors)]
    with
    | Some c => Some c
    | None =>
        match Dict.get name (rev hie) with
        | Some h => Some (HieClass h)
        | None =>
            match
              Dict.get name
                [("ControlNetPreprocessorSelector",
                  OwnClass ControlNetPreprocessorSelector);
                 ("AIO_Preprocessor", OwnClass AIO_Preprocessor)]
            with
            | Some c => Some c
            | None => option_map AuxClass (Dict.get name aux)
            end
        end
    end
  /\ Dict.get name (NODE_DISPLAY_NAME_MAPPINGS_of aux_names hie_names) =
     match
       Dict.get name
         [("ExecuteAllControlNetPreprocessors",
           "Execute All ControlNet Preprocessors")]
     with
     | Some d => Some d
     | None =>
         match Dict.get name (rev hie_names) with
         | Some d => Some d
         | None =>
             match
               Dict.get name
                 [("ControlNetPreprocessorSelector", "Preprocessor Selector");
                  ("AIO_Preprocessor", "AIO Aux Preprocessor")]
             with
             | Some d => Some d
             | None => Dict.get name aux_names
             end
         end
     end.
Proof.
  intros Haux Hnames.
  unfold NODE_CLASS_MAPPINGS_of, NODE_DISPLAY_NAME_MAPPINGS_of.
  rewrite !get_of_items, !rev_app_distr, !get_app.
  rewrite <- !map_rev, !get_map_values.
  rewrite (get_rev_NoDup aux name Haux), (get_rev_NoDup aux_names name Hnames).
  split.
  - cbn [rev app].
    destruct (Dict.get name
                [("ControlNetAuxSimpleAddText",
                  @OwnClass H ControlNetAuxSimpleAddText);
                 ("ExecuteAllControlNetPreprocessors",
                  OwnClass ExecuteAllControlNetPreprocessors)]);
      [reflexivity|].
    destruct (Dict.get name (rev hie)); [reflexivity|]. cbn [option_map].
    now destruct (Dict.get name
                    [("ControlNetPreprocessorSelector",
                      @OwnClass H ControlNetPreprocessorSelector);
                     ("AIO_Preprocessor", OwnClass AIO_Preprocessor)]).
  - cbn [rev app].
    destruct (Dict.get name
                [("ExecuteAllControlNetPreprocessors",
                  "Execute All ControlNet Preprocessors")]);
      [reflexivity|].
    destruct (Dict.get name (rev hie_names)); [reflexivity|].
    now destruct (Dict.get name
                    [("ControlNetPreprocessorSelector", "Preprocessor Selector");
                     ("AIO_Preprocessor", "AIO Aux Preprocessor")]).
Qed.

Lemma node_tables_priority_witness :
  Dict.get "AIO_Preprocessor"
    (NODE_CLASS_MAPPINGS_of
       [("AIO_Preprocessor", Examples.Canny); ("Expander", Examples.Expander)]
       [("HintImageEnchance", 0)])
  = Some (OwnClass AIO_Preprocessor)
  /\ Dict.get "ControlNetAuxSimpleAddText"
       (NODE_DISPLAY_NAME_MAPPINGS_of
          [("Expander", "Expander")] [("HintImageEnchance", "Enchance")])
     = None.
Proof.
  assert (H1 : NoDup (Dict.keys [("AIO_Preprocessor", Examples.Canny);
                                 ("Expander", Examples.Expander)])).
  { simpl. repeat constructor; simpl; intuition discriminate. }
  assert (H2 : NoDup (Dict.keys [("Expander", "Expander")])).
  { simpl. repeat constructor; simpl; tauto. }
  split.
  - rewrite (proj1 (node_tables_priority
                      [("AIO_Preprocessor", Examples.Canny);
                       ("Expander", Examples.Expander)]
                      [("Expander", "Expander")]
                      [("HintImageEnchance", 0)]
                      [("HintImageEnchance", "Enchance")]
                      "AIO_Preprocessor" H1 H2)).
    reflexivity.
  - rewrite (proj2 (node_tables_priority
                      [("AIO_Preprocessor", Examples.Canny);
                       ("Expander", Examples.Expander)]
                      [("Expander", "Expander")]
                      [("HintImageEnchance", 0)]
                      [("HintImageEnchance", "Enchance")]
                      "ControlNetAuxSimpleAddText" H1 H2)).
    reflexivity.
Defined.

(** ** The option list and the dispatch *)

Lemma list_remove_subset (x y : string) (l : list string) :
  In y (list_remove x l) -> In y l.
Proof.
  induction l as [|z l IH]; simpl; [tauto|].
  destruct (String.eqb x z); [now right|].
  intros [H | H]; [now left | right; now apply IH].
Qed.

Lemma remove_names_subset (names auxs : list string) (y : string) :
  In y (remove_names names auxs) -> In y auxs.
Proof.
  unfold remove_names. revert auxs.
  induction names as [|n names IH]; intros auxs; simpl; [tauto|].
  intros H. apply IH in H.
  destruct (str_in n auxs); [now apply list_remove_subset in H | assumption].
Qed.

(** X16. Every option the package offers can be dispatched: it is the sentinel
    "none" or the lookup in the registry succeeds, so the unified dispatch
    never raises a [KeyError] on an offered option. *)
Theorem offered_options_resolve (reg : Dict.t aux_class) (name : string) :
  In name (preprocessor_options reg) ->
  py_eq_str (VStr name) "none" = true
  \/ exists u, py_dict_getitem reg (VStr name) = Ok u.
Proof.
  unfold preprocessor_options. intros H. apply remove_names_subset in H.
  destruct H as [<- | H]; [now left|]. right.
  unfold py_dict_getitem. cbn [hashable].
  destruct (Dict.get name reg) as [u|] eqn:E; [now exists u|].
  apply get_None_keys in E. contradiction.
Qed.

Lemma offered_options_resolve_witness :
  py_eq_str (VStr "HEDPreprocessor") "none" = true
  \/ exists u,
       py_dict_getitem Examples.with_excluded (VStr "HEDPreprocessor") = Ok u.
Proof.
  apply (offered_options_resolve Examples.with_excluded "HEDPreprocessor").
  vm_compute. tauto.
Defined.

(** X17. The option list has no duplicate as long as no unit is registered
    under the sentinel's name "none". *)
Theorem preprocessor_options_distinct (reg : Dict.t aux_class) :
  NoDup (Dict.keys reg) -> ~ In "none" (Dict.keys reg) ->
  NoDup (preprocessor_options reg).
Proof.
  intros Hnd Hnone. rewrite preprocessor_options_filter by assumption.
  constructor.
  - intros H. apply filter_In in H. tauto.
  - now apply NoDup_filter.
Qed.

Lemma preprocessor_options_distinct_witness :
  NoDup (preprocessor_options Examples.with_excluded).
Proof.
  apply preprocessor_options_distinct.
  - simpl. repeat constructor; simpl; intuition discriminate.
  - simpl. intuition discriminate.
Defined.

Lemma AIO_fallback_choices_raise_witness :
  AIO_fallback "dtype"
    {| it_type := VList [VStr "fp16"; VStr "FLOAT"]; it_rest := [] |}
    [("image", Examples.the_image)]
  = Raise unhashable_type.
Proof.
  apply (AIO_fallback_choices_raise "dtype" [VStr "fp16"; VStr "FLOAT"] []
           [("image", Examples.the_image)]).
  reflexivity.
Defined.
